(** * The transit fit of [exoplanet_fit.ipynb]

    A shallow embedding of the notebook: its numpy preprocessing, the PyMC
    model it builds, the sampling calls and the summary of the posterior
    predictive samples, followed by the properties the specification states
    about them.

    Numbers.  The notebook computes with numpy [float64] arrays.  Three
    views of this arithmetic are used.

    - Exact: an array is a list of real numbers and the operations are those
      of [R].  What concerns the shape of the data, the order statistics of
      the samples, the names that are bound and the calls that are made is
      stated in this view.  The one special value that is kept is [nan] as
      the result of reducing an empty array ([np.mean], [np.median]); it is
      [None] in a scalar of type [option R].
    - Rounded (module [fl]): every operation of the preprocessing is the
      operation of [R] followed by a rounding [rnd].  The statements about
      the values of [t_norm], [flux_rel] and [flux_err] are made in this
      view, for every [rnd] with the properties of rounding to the nearest
      [float64] away from overflow and underflow.
    - Binary64 (module [f64]): the operations are those of the primitive
      floats, to run the preprocessing on a given column. *)

From Stdlib Require Import Reals Lra Lia Floats.
From stdpp Require Import base option list sorting gmap strings pretty.

#[global] Instance R_inhabited : Inhabited R := populate 0%R.
#[global] Instance Rle_rel_dec : RelDecision Rle := Rle_dec.
#[global] Instance Rle_trans_inst : Transitive Rle := Rle_trans.
#[global] Instance Rle_antisym_inst : AntiSymm eq Rle := Rle_antisym.
#[global] Instance Rle_total_inst : Total Rle.
Proof. intros x y. destruct (Rle_or_lt x y); [left | right]; lra. Qed.

(** ** Exceptions

    The Python exceptions the notebook's own statements can raise, and
    [LibraryError] for whatever a library call raises. *)
Inductive exn : Type :=
| IndexError
| KeyError (key : string)
| NameError (name : string)
| TypeError (name : string)
| ValueError (msg : string)
| FileNotFoundError (path : string)
| LibraryError (library message : string).

(** A computation that returns or raises. *)
Abbreviation result := (sum exn).

#[global] Instance result_ret : MRet result := λ A x, inr x.
#[global] Instance result_bind : MBind result :=
  λ A B f m, match m with inl e => inl e | inr x => f x end.

(** ** numpy on one-dimensional arrays *)
Module np.
Local Open Scope R_scope.

(** [a[0]]: the first element, [IndexError] on an empty array. *)
Definition item0 (a : list R) : result R :=
  match a with
  | [] => inl IndexError
  | x :: _ => inr x
  end.

(** [a - c], [a + c] and [c * a] for a scalar [c]. *)
Definition sub_scalar (a : list R) (c : R) : list R := (λ x, x - c) <$> a.
Definition add_scalar (a : list R) (c : R) : list R := (λ x, x + c) <$> a.
Definition scale (c : R) (a : list R) : list R := (λ x, c * x) <$> a.

(** [a - c] where [c] is a reduction of an array of the length of [a].
    Such a [c] is [nan] only when that array, and so [a], is empty, and the
    empty array minus [nan] is the empty array. *)
Definition sub_reduced (a : list R) (c : option R) : list R :=
  match c with
  | Some c => sub_scalar a c
  | None => []
  end.

(** The shape of a one-dimensional array, as numpy prints it. *)
Definition shape (a : list R) : string := "(" +:+ pretty (length a) +:+ ",)".

Definition broadcast_error (a b : list R) : exn :=
  ValueError ("operands could not be broadcast together with shapes "
              +:+ shape a +:+ " " +:+ shape b +:+ " ").

(** [a * b] for two arrays: elementwise when the shapes agree, broadcast
    when one of them has length one, [ValueError] otherwise. *)
Definition mul (a b : list R) : result (list R) :=
  if decide (length a = length b) then inr (zip_with Rmult a b)
  else match a, b with
       | [x], _ => inr (scale x b)
       | _, [y] => inr ((λ x, x * y) <$> a)
       | _, _ => inl (broadcast_error a b)
       end.

(** [10 ** a]. *)
Definition power10 (a : list R) : list R := Rpower 10 <$> a.

(** [np.log(x)]. *)
Definition log (x : R) : R := ln x.

Definition sum (a : list R) : R := foldr Rplus 0 a.

(** [np.mean(a)]: [nan] for an empty array. *)
Definition mean (a : list R) : option R :=
  match a with
  | [] => None
  | _ => Some (sum a / INR (length a))
  end.

(** The order statistics come from the sorted array. *)
Definition sort (a : list R) : list R := merge_sort Rle a.

(** [np.median(a)]: the mean of the middle element of the sorted array, or
    of the two middle elements when the length is even. For an empty array
    the middle slice is empty and its mean is [nan]. *)
Definition middle (s : list R) : list R :=
  let n := length s in
  if Nat.even n then take 2 (drop (n / 2 - 1) s) else take 1 (drop (n / 2) s).

Definition median (a : list R) : option R := mean (middle (sort a)).

(** [np.diff(a)]: [out[i] = a[i+1] - a[i]]. *)
Definition diff (a : list R) : list R := zip_with (λ x y, y - x) a (tail a).

(** [np.percentile(a, q)] with the default linear interpolation, for a whole
    number of percent [q]: the virtual index is [q/100 * (n-1)], split into
    its floor [i] and its fractional part, and the result interpolates
    between the sorted elements [i] and [i+1] (clipped to the last one).
    An empty array has no element to index: the result is [None], where
    numpy raises [IndexError] (unlike [np.mean] and [np.median], which give
    [nan]). *)
Definition lerp (x y g : R) : R := x + g * (y - x).

Definition percentile_sorted (s : list R) (q : nat) : option R :=
  let n := length s in
  let k := (q * (n - 1))%nat in
  let i := (k / 100)%nat in
  x ← s !! i;
  y ← s !! Nat.min (i + 1) (n - 1);
  Some (lerp x y (INR (k mod 100) / 100)).

Definition percentile (a : list R) (q : nat) : option R :=
  percentile_sorted (sort a) q.

(** Arrays of shape (chain, draw, n): the reductions over [axis=(0,1)]
    treat, for each index [j] of the last axis, the values of all chains and
    draws at [j] as one array. *)
Record Array3 : Type := MkArray3 {
  last_axis : nat;
  items : list (list (list R))
}.

Definition column (a : Array3) (j : nat) : list R :=
  (λ s : list R, s !!! j) <$> concat (items a).

(** [np.median(a, axis=(0,1))]. *)
Definition median01 (a : Array3) : list (option R) :=
  (λ j, median (column a j)) <$> seq 0 (last_axis a).

(** The percentile [q] of the samples at each index of the last axis. *)
Definition percentile01 (a : Array3) (q : nat) : list (option R) :=
  (λ j, percentile (column a j) q) <$> seq 0 (last_axis a).

(** [np.percentile(a, q, axis=(0,1))] for one [q]: [IndexError] when the
    array holds no sample. *)
Definition percentile_axes01 (a : Array3) (q : nat) : result (list R) :=
  if decide (concat (items a) = []) then inl IndexError
  else match mapM (λ o : option R, o) (percentile01 a q) with
       | Some v => inr v
       | None => inl IndexError
       end.

(** [a + c] on an array that may hold [nan]. *)
Definition add_scalar_nan (a : list (option R)) (c : R) : list (option R) :=
  (λ o : option R, (λ x, x + c) <$> o) <$> a.

End np.

(** ** pandas: a data frame is a table of named numeric columns *)
Module pd.

Abbreviation DataFrame := (gmap string (list R)).

(** [df[c].values]: [KeyError] when the frame has no column [c]. *)
Definition getitem (df : DataFrame) (c : string) : result (list R) :=
  match df !! c with
  | Some a => inr a
  | None => inl (KeyError c)
  end.

(** The columns of one frame all have the number of rows of the frame. *)
Definition rows (df : DataFrame) (n : nat) : Prop :=
  ∀ c a, df !! c = Some a → length a = n.

End pd.

(** ** PyMC: the model is a symbolic graph

    [pm.Normal], [pm.Deterministic] and the distributions of [exoplanet]
    register a named variable in the model of the enclosing [with] block and
    return a tensor that refers to it; [pt.exp], [+] and [*] on tensors build
    expressions. *)
Module pm.

Inductive expr : Type :=
| ENum (x : option R)
| EArr (a : list R)
| ERef (name : string)
| EExp (e : expr)
| EAdd (e1 e2 : expr)
| EMul (e1 e2 : expr)
| EItem (e : expr) (i : nat)
| ESumLast (e : expr)
| ELightCurve (u1 u2 : expr) (orbit : KeplerianOrbit) (r : expr)
    (t : list R) (texp : option R)
with KeplerianOrbit : Type :=
| Orbit (period t0 b rho_star r_star : expr).

(** [ImpactParameter] and [QuadLimbDark] are the distributions of
    [exoplanet].  A variable with one of them stands for what the library
    registers under the given name, with the auxiliary variables it may add
    for it under names of its own (they start with two underscores and the
    notebook never refers to them). *)
Inductive dist : Type :=
| Normal (mu sigma : expr)
| Uniform (lower upper : R)
| LogNormal (mu sigma : R)
| ImpactParameter (ror : expr)
| QuadLimbDark (initval : list R).

(** A named variable of the model. *)
Inductive rv : Type :=
| Free (name : string) (d : dist)
| Deterministic (name : string) (e : expr)
| Observed (name : string) (d : dist) (observed : list R).

Abbreviation Model := (list rv).

Definition rv_name (v : rv) : string :=
  match v with
  | Free n _ | Deterministic n _ | Observed n _ _ => n
  end.

Definition is_observed (v : rv) : bool :=
  match v with
  | Observed _ _ _ => true
  | _ => false
  end.

(** The variables a posterior sample gives a value to: the free and the
    deterministic ones. *)
Definition unobserved_names (m : Model) : list string :=
  rv_name <$> filter (λ v, is_observed v = false) m.

(** One posterior sample: a value (a vector) for each variable. *)
Abbreviation Point := (gmap string (list R)).

(** The samples, by chain and by draw. *)
Abbreviation Trace := (list (list Point)).

(** What [pm.sample] promises about its result: every draw of every chain
    holds a value for each unobserved variable of the model. *)
Definition samples_model (m : Model) (tr : Trace) : Prop :=
  ∀ chain pt name,
    chain ∈ tr → pt ∈ chain → name ∈ unobserved_names m → is_Some (pt !! name).

End pm.

(** ** matplotlib: the calls the notebook makes *)
Module plt.

Inductive cmd : Type :=
| figure (width height : nat)
| errorbar (x y yerr : list R) (fmt label : string)
| plot (x : list R) (y : list (option R)) (label : string)
| fill_between (x y1 y2 : list R) (color : string) (alpha : R)
    (label : string)
| xlabel (s : string)
| ylabel (s : string)
| legend
| show.

End plt.

(** ** The libraries, as the notebook sees them

    The parser of [pd.read_csv], the sampler and the plotting backend are not
    code of the notebook: each is a function that returns or raises, and the
    properties below hold for every such function. *)
Record Libraries : Type := MkLibraries {
  parse_csv : string → result pd.DataFrame;
  sample : pm.Model → nat → nat → R → result pm.Trace;
  sample_posterior_predictive :
    pm.Model → pm.Trace → list string → nat → result (gmap string np.Array3);
  draw : plt.cmd → result ()
}.

(** ** The kernel state of the notebook *)

(** The values bound to the notebook's global names. *)
Inductive value : Type :=
| VModule (name : string)
| VFrame (df : pd.DataFrame)
| VArr (a : list R)
| VNum (x : option R)
| VNanArr (a : list (option R))
| VTensor (e : pm.expr)
| VOrbit (o : pm.KeplerianOrbit)
| VModel (m : pm.Model)
| VTrace (tr : pm.Trace)
| VInferenceData (groups : gmap string np.Array3)
| VArr3 (a : np.Array3).

(** A call that leaves the notebook. *)
Inductive call : Type :=
| call_read_csv (path : string)
| call_sample (m : pm.Model) (draws tune : nat) (target_accept : R)
| call_sample_posterior_predictive (m : pm.Model) (tr : pm.Trace)
    (var_names : list string) (random_seed : nat)
| call_plt (c : plt.cmd).

(** The global names, the files on disk (path to contents) and the calls
    made so far. *)
Record state : Type := MkState {
  globals : gmap string value;
  files : gmap string string;
  calls : list call
}.

(** A statement runs from a state and returns or raises; what it bound
    before raising stays bound, as in a notebook kernel. *)
Definition nb (A : Type) : Type := state → result A * state.

#[global] Instance nb_ret : MRet nb := λ A x st, (inr x, st).
#[global] Instance nb_bind : MBind nb :=
  λ A B f m st,
    match m st with
    | (inl e, st') => (inl e, st')
    | (inr x, st') => f x st'
    end.

Definition lift {A} (r : result A) : nb A := λ st, (r, st).

(** Binding a global name, and logging a call. *)
Definition set_global (x : string) (v : value) (st : state) : state :=
  MkState (<[x := v]> (globals st)) (files st) (calls st).

Definition log_call (c : call) (st : state) : state :=
  MkState (globals st) (files st) (calls st ++ [c]).

Definition assign (x : string) (v : value) : nb () :=
  λ st, (inr (), set_global x v st).

Definition record (c : call) : nb () :=
  λ st, (inr (), log_call c st).

(** Reading a global name: [NameError] when it is unbound. *)
Definition lookup_name (x : string) : nb value :=
  λ st, match globals st !! x with
        | Some v => (inr v, st)
        | None => (inl (NameError x), st)
        end.

Definition get_arr (x : string) : nb (list R) :=
  v ← lookup_name x;
  match v with VArr a => mret a | _ => lift (inl (TypeError x)) end.

Definition get_num (x : string) : nb (option R) :=
  v ← lookup_name x;
  match v with VNum c => mret c | _ => lift (inl (TypeError x)) end.

Definition get_model (x : string) : nb pm.Model :=
  v ← lookup_name x;
  match v with VModel m => mret m | _ => lift (inl (TypeError x)) end.

(** [import m as x]. *)
Definition import (x : string) : nb () := assign x (VModule x).

(** A [pm] distribution or deterministic inside the [with] block: the
    variable is added to the model bound to [model]. *)
Definition register (v : pm.rv) : nb pm.expr :=
  m ← get_model "model";
  assign "model" (VModel (m ++ [v]));;
  mret (pm.ERef (pm.rv_name v)).

(** ** Preprocessing (the third cell), as functions of the columns *)
Section preprocessing.
Local Open Scope R_scope.

(** [t_rel = time - t0], [t_ref = np.mean(t_rel)], [t_norm = t_rel - t_ref],
    where [t0 = time[0]]. *)
Definition t_rel (time : list R) (t0 : R) : list R := np.sub_scalar time t0.

Definition t_ref (time : list R) (t0 : R) : option R := np.mean (t_rel time t0).

Definition t_norm (time : list R) (t0 : R) : list R :=
  np.sub_reduced (t_rel time t0) (t_ref time t0).

(** [mag0 = np.median(mag)] and
    [flux_rel = 10**(-0.4 * (mag - mag0)) - 1.0]. *)
Definition mag0 (mag : list R) : option R := np.median mag.

Definition flux_rel (mag : list R) : list R :=
  np.sub_scalar
    (np.power10 (np.scale (-0.4) (np.sub_reduced mag (mag0 mag)))) 1.

(** [flux_err = 0.4 * np.log(10) * (flux_rel + 1) * merr]. *)
Definition flux_err (flux_rel merr : list R) : result (list R) :=
  np.mul (np.scale (0.4 * np.log 10) (np.add_scalar flux_rel 1)) merr.

(** The exposure time handed to the light curve:
    [texp = np.median(np.diff(t_norm))]. *)
Definition texp (t_norm : list R) : option R := np.median (np.diff t_norm).

End preprocessing.

(** ** The third cell in rounded arithmetic

    The same statements with every operation of the cell followed by the
    rounding [rnd] of the result to a [float64].  [np.mean], [10 ** x] and
    [np.log] are numpy's: [np_mean] and [pow10] are the functions it
    computes and [log10] is the value of [np.log(10)]. *)
Module fl.
Section rounded.
Local Open Scope R_scope.
Context (rnd : R → R) (np_mean : list R → R) (pow10 : R → R) (log10 : R).

(** [t_rel = time - t0], [t_ref = np.mean(t_rel)], [t_norm = t_rel - t_ref]. *)
Definition t_rel (time : list R) (t0 : R) : list R :=
  (λ t, rnd (t - t0)) <$> time.

Definition t_ref (time : list R) (t0 : R) : R := np_mean (t_rel time t0).

Definition t_norm (time : list R) (t0 : R) : list R :=
  (λ r, rnd (r - t_ref time t0)) <$> t_rel time t0.

(** The normalized time of a column, from [t0 = time[0]] on. *)
Definition normalize (time : list R) : result (list R) :=
  t0 ← np.item0 time; mret (t_norm time t0).

(** [mag0 = np.median(mag)]: numpy takes the mean of the middle slice of the
    sorted array. *)
Definition mag0 (mag : list R) : R := np_mean (np.middle (np.sort mag)).

(** [-0.4 * (m - m0)]: the literal is the [float64] next to 0.4. *)
Definition exponent (m m0 : R) : R := rnd (- rnd 0.4 * rnd (m - m0)).

(** [flux_rel = 10**(-0.4 * (mag - mag0)) - 1.0]. *)
Definition flux_rel (mag : list R) : list R :=
  (λ m, rnd (pow10 (exponent m (mag0 mag)) - 1)) <$> mag.

(** [a * b] for two arrays, as [np.mul]. *)
Definition mul (a b : list R) : result (list R) :=
  if decide (length a = length b)
  then inr (zip_with (λ x y, rnd (x * y)) a b)
  else match a, b with
       | [x], _ => inr ((λ y, rnd (x * y)) <$> b)
       | _, [y] => inr ((λ x, rnd (x * y)) <$> a)
       | _, _ => inl (np.broadcast_error a b)
       end.

(** [flux_err = 0.4 * np.log(10) * (flux_rel + 1) * merr], from left to
    right: the scalar [0.4 * np.log(10)] first. *)
Definition flux_err (flux_rel merr : list R) : result (list R) :=
  mul ((λ f, rnd (rnd (rnd 0.4 * log10) * rnd (f + 1))) <$> flux_rel) merr.

End rounded.

(** The bound on [t_norm[i] - (time[i] - mean(time))], in units of the
    largest [|time[j] - time[0]|], for a unit roundoff [u] and a mean that is
    accurate to [e]. *)
Definition centering_error (u e : R) : R :=
  ((1 + u) * (2 * u + e * (1 + u)) + 2 * u)%R.

(** The mean without rounding. *)
Definition exact_mean (a : list R) : R := (np.sum a / INR (length a))%R.

End fl.

(** ** The third cell in binary64

    The cell on [float64] values themselves, for running it on a column.
    [np.sum] is the sum from left to right, which is how numpy adds an array
    of fewer than eight elements (longer arrays are added in blocks). *)
Module f64.
#[local] Set Warnings "-inexact-float".
Local Open Scope float_scope.

Definition item0 (a : list float) : result float :=
  match a with
  | [] => inl IndexError
  | x :: _ => inr x
  end.

Definition sub_scalar (a : list float) (c : float) : list float :=
  (λ x, x - c) <$> a.
Definition add_scalar (a : list float) (c : float) : list float :=
  (λ x, x + c) <$> a.

Definition of_nat (n : nat) : float :=
  PrimFloat.of_uint63 (Uint63.of_Z (Z.of_nat n)).

Definition sum (a : list float) : float := foldl PrimFloat.add 0 a.

(** [np.mean(a)]: [0/0], which is [nan], for an empty array. *)
Definition mean (a : list float) : float := sum a / of_nat (length a).

Definition le (x y : float) : Prop := (x <=? y) = true.

#[global] Instance le_dec : RelDecision le :=
  λ x y, decide ((x <=? y) = true).

Definition sort (a : list float) : list float := merge_sort le a.

Definition middle (s : list float) : list float :=
  let n := length s in
  if Nat.even n then take 2 (drop (n / 2 - 1) s) else take 1 (drop (n / 2) s).

Definition median (a : list float) : float := mean (middle (sort a)).

Definition t_rel (time : list float) (t0 : float) : list float :=
  sub_scalar time t0.

Definition t_ref (time : list float) (t0 : float) : float :=
  mean (t_rel time t0).

Definition t_norm (time : list float) (t0 : float) : list float :=
  sub_scalar (t_rel time t0) (t_ref time t0).

Definition normalize (time : list float) : result (list float) :=
  t0 ← item0 time; mret (t_norm time t0).

Definition mag0 (mag : list float) : float := median mag.

(** [flux_rel = 10**(-0.4 * (mag - mag0)) - 1.0], for the power function
    [pow10] of the C library. *)
Definition flux_rel (pow10 : float → float) (mag : list float) : list float :=
  sub_scalar ((λ m, pow10 (-0.4 * (m - mag0 mag))) <$> mag) 1.

(** The values of [10 ** x] at the three exponents that the magnitudes
    12.0, 12.1 and 99.99 give, and [nan] elsewhere. *)
Definition pow10_sample (x : float) : float :=
  if x =? 0.03999999999999986 then 1.0964781961431846
  else if x =? 0 then 1
  else if x =? -35.156 then 6.982324040771733e-36
  else nan.

End f64.

(** ** The cells *)
Section Notebook.
Context (L : Libraries).
Local Open Scope R_scope.

Definition read_file (path : string) : nb string :=
  λ st, match files st !! path with
        | Some text => (inr text, st)
        | None => (inl (FileNotFoundError path), st)
        end.

(** [pd.read_csv(path)]. *)
Definition read_csv (path : string) : nb pd.DataFrame :=
  record (call_read_csv path);;
  text ← read_file path;
  lift (parse_csv L text).

(** [pm.sample(draws=.., tune=.., target_accept=..)] in the model [m]. *)
Definition pm_sample (m : pm.Model) (draws tune : nat) (target_accept : R)
  : nb pm.Trace :=
  record (call_sample m draws tune target_accept);;
  lift (sample L m draws tune target_accept).

(** [pm.sample_posterior_predictive(trace, var_names=.., random_seed=..)]. *)
Definition pm_sample_posterior_predictive (m : pm.Model) (tr : pm.Trace)
    (var_names : list string) (random_seed : nat)
  : nb (gmap string np.Array3) :=
  record (call_sample_posterior_predictive m tr var_names random_seed);;
  lift (sample_posterior_predictive L m tr var_names random_seed).

(** A call of [plt]. *)
Definition plt_call (c : plt.cmd) : nb () :=
  record (call_plt c);;
  lift (draw L c).

Definition get_trace (x : string) : nb pm.Trace :=
  v ← lookup_name x;
  match v with VTrace tr => mret tr | _ => lift (inl (TypeError x)) end.

Definition get_nan_arr (x : string) : nb (list (option R)) :=
  v ← lookup_name x;
  match v with VNanArr a => mret a | _ => lift (inl (TypeError x)) end.

Definition get_inference_data (x : string) : nb (gmap string np.Array3) :=
  v ← lookup_name x;
  match v with VInferenceData g => mret g | _ => lift (inl (TypeError x)) end.

(** [ds[name]] on a group of an inference data object. *)
Definition getitem_group (ds : gmap string np.Array3) (name : string)
  : result np.Array3 :=
  match ds !! name with
  | Some a => inr a
  | None => inl (KeyError name)
  end.

(** Cell 1: the imports.  They bind the module names; the statements of the
    later cells are modelled as they run once this cell has run, and do not
    look a module name up again. *)
Definition cell1 : nb () :=
  import "pd";; import "np";; import "plt";; import "pm";; import "pt";;
  import "xo";; import "Time".

(** Cell 2: read HJD, MAG, MERR from the CSV file. *)
Definition cell2 : nb () :=
  df ← read_csv "data/lc_obs.csv";
  assign "df" (VFrame df);;
  time ← lift (pd.getitem df "HJD");
  assign "time" (VArr time);;
  mag ← lift (pd.getitem df "MAG");
  assign "mag" (VArr mag);;
  merr ← lift (pd.getitem df "MERR");
  assign "merr" (VArr merr).

(** Cell 3: preprocess time and magnitudes. *)
Definition cell3 : nb () :=
  time ← get_arr "time";
  t0 ← lift (np.item0 time);
  assign "t0" (VNum (Some t0));;
  assign "t_rel" (VArr (t_rel time t0));;
  assign "t_ref" (VNum (t_ref time t0));;
  assign "t_norm" (VArr (t_norm time t0));;
  mag ← get_arr "mag";
  assign "mag0" (VNum (mag0 mag));;
  assign "flux_rel" (VArr (flux_rel mag));;
  merr ← get_arr "merr";
  err ← lift (flux_err (flux_rel mag) merr);
  assign "flux_err" (VArr err).

(** Cell 4, first part: the [with pm.Model() as model] block up to the
    likelihood; the result is the model that [pm.sample] finds in the
    context. *)
Definition build_model : nb pm.Model :=
  assign "model" (VModel []);;
  logP ← register (pm.Free "logP"
            (pm.Normal (pm.ENum (Some (np.log 3.21305751)))
                       (pm.ENum (Some 0.005))));
  assign "logP" (VTensor logP);;
  period ← register (pm.Deterministic "period" (pm.EExp logP));
  assign "period" (VTensor period);;
  phase ← register (pm.Free "phase" (pm.Uniform (-0.5) 0.5));
  assign "phase" (VTensor phase);;
  ref ← get_num "t_ref";
  tm ← register (pm.Deterministic "tm"
          (pm.EAdd (pm.ENum ref) (pm.EMul phase period)));
  assign "tm" (VTensor tm);;
  r ← register (pm.Free "r" (pm.LogNormal (np.log 0.1) 0.5));
  assign "r" (VTensor r);;
  b ← register (pm.Free "b" (pm.ImpactParameter r));
  assign "b" (VTensor b);;
  log_rho_star ← register (pm.Free "log_rho_star"
                    (pm.Normal (pm.ENum (Some (np.log 1.4)))
                               (pm.ENum (Some 0.5))));
  assign "log_rho_star" (VTensor log_rho_star);;
  rho_star ← register (pm.Deterministic "rho_star" (pm.EExp log_rho_star));
  assign "rho_star" (VTensor rho_star);;
  log_rstar ← register (pm.Free "log_rstar"
                 (pm.Normal (pm.ENum (Some (np.log 0.7)))
                            (pm.ENum (Some 0.5))));
  assign "log_rstar" (VTensor log_rstar);;
  r_star ← register (pm.Deterministic "r_star" (pm.EExp log_rstar));
  assign "r_star" (VTensor r_star);;
  let orbit := pm.Orbit period tm b rho_star r_star in
  assign "orbit" (VOrbit orbit);;
  u ← register (pm.Free "u" (pm.QuadLimbDark [0.3; 0.2]));
  assign "u" (VTensor u);;
  mean ← register (pm.Free "mean"
            (pm.Normal (pm.ENum (Some 0)) (pm.ENum (Some 0.1))));
  assign "mean" (VTensor mean);;
  t ← get_arr "t_norm";
  let raw_lc :=
    pm.EAdd
      (pm.ESumLast
         (pm.ELightCurve (pm.EItem u 0) (pm.EItem u 1) orbit r t (texp t)))
      mean in
  assign "raw_lc" (VTensor raw_lc);;
  err ← get_arr "flux_err";
  flux ← get_arr "flux_rel";
  register (pm.Observed "obs" (pm.Normal raw_lc (pm.EArr err)) flux);;
  get_model "model".

(** ... and the sampling that ends the block. *)
Definition model_block : nb () :=
  m ← build_model;
  trace ← pm_sample m 2000 1000 0.9;
  assign "trace" (VTrace trace).

(** Cell 4, the summary of the posterior predictive samples:
    [lc_samps = ppc.posterior_predictive['raw_lc']], their median and their
    16th and 84th percentiles over the chains and draws.  The two
    percentiles come from one call, so that neither name is bound when it
    raises. *)
Definition summary_block : nb () :=
  ppc ← get_inference_data "ppc";
  lc_samps ← lift (getitem_group ppc "raw_lc");
  assign "lc_samps" (VArr3 lc_samps);;
  assign "lc_median" (VNanArr (np.median01 lc_samps));;
  lo ← lift (np.percentile_axes01 lc_samps 16);
  hi ← lift (np.percentile_axes01 lc_samps 84);
  assign "lc_lo" (VArr lo);;
  assign "lc_hi" (VArr hi).

(** Cell 4, second part: the posterior predictive samples of the light
    curve and their summary. *)
Definition predictive_block : nb () :=
  m ← get_model "model";
  trace ← get_trace "trace";
  ppc ← pm_sample_posterior_predictive m trace ["raw_lc"] 42;
  assign "ppc" (VInferenceData ppc);;
  summary_block.

(** Cell 4, third part: plot the synthetic light curve against the data. *)
Definition plot_block : nb () :=
  plt_call (plt.figure 8 4);;
  time ← get_arr "time";
  flux ← get_arr "flux_rel";
  err ← get_arr "flux_err";
  plt_call (plt.errorbar time (np.add_scalar flux 1) err ".k" "Data");;
  lc_median ← get_nan_arr "lc_median";
  plt_call (plt.plot time (np.add_scalar_nan lc_median 1) "Model");;
  lc_lo ← get_arr "lc_lo";
  lc_hi ← get_arr "lc_hi";
  plt_call (plt.fill_between time (np.add_scalar lc_lo 1)
              (np.add_scalar lc_hi 1) "C0" 0.3 "1σ band");;
  plt_call (plt.xlabel "Heliocentric JD");;
  plt_call (plt.ylabel "Relative Flux");;
  plt_call plt.legend;;
  plt_call plt.show.

Definition cell4 : nb () := model_block;; predictive_block;; plot_block.

(** The later stages: everything that runs after the table is read. *)
Definition later_stages : nb () := cell3;; cell4.

(** Running the notebook from top to bottom. *)
Definition run_all : nb () := cell1;; cell2;; later_stages.

End Notebook.

(** The model the block builds, as a function of the preprocessed data. *)
Definition transit_model (ref : option R) (t err flux : list R) : pm.Model :=
  let logP := pm.ERef "logP" in
  let period := pm.ERef "period" in
  let phase := pm.ERef "phase" in
  let tm := pm.ERef "tm" in
  let r := pm.ERef "r" in
  let b := pm.ERef "b" in
  let log_rho_star := pm.ERef "log_rho_star" in
  let rho_star := pm.ERef "rho_star" in
  let log_rstar := pm.ERef "log_rstar" in
  let r_star := pm.ERef "r_star" in
  let u := pm.ERef "u" in
  let mean := pm.ERef "mean" in
  let orbit := pm.Orbit period tm b rho_star r_star in
  let raw_lc :=
    pm.EAdd
      (pm.ESumLast
         (pm.ELightCurve (pm.EItem u 0) (pm.EItem u 1) orbit r t (texp t)))
      mean in
  [ pm.Free "logP" (pm.Normal (pm.ENum (Some (np.log 3.21305751%R)))
                              (pm.ENum (Some 0.005%R)));
    pm.Deterministic "period" (pm.EExp logP);
    pm.Free "phase" (pm.Uniform (-0.5)%R 0.5%R);
    pm.Deterministic "tm" (pm.EAdd (pm.ENum ref) (pm.EMul phase period));
    pm.Free "r" (pm.LogNormal (np.log 0.1%R) 0.5%R);
    pm.Free "b" (pm.ImpactParameter r);
    pm.Free "log_rho_star" (pm.Normal (pm.ENum (Some (np.log 1.4%R)))
                                      (pm.ENum (Some 0.5%R)));
    pm.Deterministic "rho_star" (pm.EExp log_rho_star);
    pm.Free "log_rstar" (pm.Normal (pm.ENum (Some (np.log 0.7%R)))
                                   (pm.ENum (Some 0.5%R)));
    pm.Deterministic "r_star" (pm.EExp log_rstar);
    pm.Free "u" (pm.QuadLimbDark [0.3%R; 0.2%R]);
    pm.Free "mean" (pm.Normal (pm.ENum (Some 0%R)) (pm.ENum (Some 0.1%R)));
    pm.Observed "obs" (pm.Normal raw_lc (pm.EArr err)) flux ].

(** The model of a table: the third cell's outputs put into the model
    block. *)
Definition fitted_model (time mag merr : list R) : result pm.Model :=
  t0 ← np.item0 time;
  err ← flux_err (flux_rel mag) merr;
  mret (transit_model (t_ref time t0) (t_norm time t0) err (flux_rel mag)).

(** * Properties *)

(** ** Sums, means and centering *)
Section centering.
Local Open Scope R_scope.

Lemma INR_length_pos {A} (a : list A) : a ≠ [] → 0 < INR (length a).
Proof. destruct a; [done | intros _; apply lt_0_INR; simpl; lia]. Qed.

Lemma sum_sub_scalar (a : list R) (c : R) :
  np.sum (np.sub_scalar a c) = np.sum a - INR (length a) * c.
Proof.
  induction a as [| x a IH].
  - simpl. lra.
  - change (np.sum (np.sub_scalar (x :: a) c))
      with (x - c + np.sum (np.sub_scalar a c)).
    change (np.sum (x :: a)) with (x + np.sum a).
    rewrite IH. change (length (x :: a)) with (S (length a)).
    rewrite S_INR. lra.
Qed.

Lemma mean_nonempty (a : list R) :
  a ≠ [] → np.mean a = Some (np.sum a / INR (length a)).
Proof. by destruct a. Qed.

Lemma mean_None (a : list R) : np.mean a = None ↔ a = [].
Proof. by destruct a. Qed.

Lemma sub_scalar_length (a : list R) (c : R) :
  length (np.sub_scalar a c) = length a.
Proof. apply length_fmap. Qed.

Lemma sub_scalar_nonempty (a : list R) (c : R) :
  a ≠ [] → np.sub_scalar a c ≠ [].
Proof. by destruct a. Qed.

End centering.

(** ** Rounding errors of sums and means *)
Section rounding_error.
Local Open Scope R_scope.

Lemma Rabs_le_between (x c : R) : Rabs x <= c ↔ - c <= x <= c.
Proof.
  split; [| apply Rabs_le].
  intros H. unfold Rabs in H. destruct (Rcase_abs x); lra.
Qed.

Lemma sum_cons (x : R) (l : list R) : np.sum (x :: l) = x + np.sum l.
Proof. reflexivity. Qed.

Lemma sum_fmap_minus {A} (f g : A → R) (l : list A) :
  np.sum (f <$> l) - np.sum (g <$> l) = np.sum ((λ x, f x - g x) <$> l).
Proof.
  induction l as [| x l IH].
  - unfold np.sum. simpl. lra.
  - rewrite !fmap_cons, !sum_cons. lra.
Qed.

Lemma sum_bounded (l : list R) (c : R) :
  (∀ x, x ∈ l → Rabs x <= c) → Rabs (np.sum l) <= INR (length l) * c.
Proof.
  induction l as [| x l IH]; intros Hl.
  - simpl. rewrite Rabs_R0. lra.
  - change (np.sum (x :: l)) with (x + np.sum l).
    change (length (x :: l)) with (S (length l)). rewrite S_INR.
    pose proof (Rabs_triang x (np.sum l)) as Ht.
    assert (Rabs x <= c) as Hx by (apply Hl; left).
    assert (Rabs (np.sum l) <= INR (length l) * c) as Hs.
    { apply IH. intros y Hy. apply Hl. by right. }
    lra.
Qed.

(** The mean of numbers of absolute value at most [c] is such a number. *)
Lemma mean_bounded (l : list R) (μ c : R) :
  np.mean l = Some μ → (∀ x, x ∈ l → Rabs x <= c) → Rabs μ <= c.
Proof.
  intros Hm Hl. destruct l as [| x0 l0] eqn:El; [done |]. rewrite <- El in *.
  assert (l ≠ []) as Hne by (by rewrite El).
  rewrite (mean_nonempty l Hne) in Hm. injection Hm as <-.
  pose proof (INR_length_pos l Hne) as Hn.
  pose proof (sum_bounded l c Hl) as Hs.
  unfold Rdiv. rewrite Rabs_mult, (Rabs_pos_eq (/ _)).
  - apply (Rmult_le_reg_r (INR (length l))); [done |].
    rewrite Rmult_assoc, Rinv_l by lra. lra.
  - left. by apply Rinv_0_lt_compat.
Qed.

(** The means of two arrays that differ by at most [c] at each index differ
    by at most [c]. *)
Lemma mean_fmap_close {A} (f g : A → R) (l : list A) (μf μg c : R) :
  np.mean (f <$> l) = Some μf → np.mean (g <$> l) = Some μg →
  (∀ x, x ∈ l → Rabs (f x - g x) <= c) →
  Rabs (μf - μg) <= c.
Proof.
  intros Hf Hg Hc.
  assert (l ≠ []) as Hne by (intros ->; done).
  assert (np.mean ((λ x, f x - g x) <$> l) = Some (μf - μg)) as Hm.
  { rewrite mean_nonempty by (by destruct l).
    rewrite mean_nonempty in Hf, Hg by (by destruct l).
    injection Hf as <-. injection Hg as <-.
    rewrite <- sum_fmap_minus, !length_fmap. f_equal.
    pose proof (INR_length_pos l Hne). field. lra. }
  apply (mean_bounded _ _ _ Hm). intros y Hy.
  apply list_elem_of_fmap in Hy as (x & -> & Hx). by apply Hc.
Qed.

Lemma mean_sub_scalar (a : list R) (μ c : R) :
  np.mean a = Some μ → np.mean ((λ t, t - c) <$> a) = Some (μ - c).
Proof.
  intros Hm. assert (a ≠ []) as Hne by (intros ->; done).
  rewrite mean_nonempty in Hm by done. injection Hm as <-.
  rewrite mean_nonempty by (by destruct a).
  change ((λ t, t - c) <$> a) with (np.sub_scalar a c).
  rewrite sum_sub_scalar, sub_scalar_length. f_equal.
  pose proof (INR_length_pos a Hne). field. lra.
Qed.

(** The mean without rounding is as accurate as can be. *)
Lemma exact_mean_error (l : list R) (μ c : R) :
  np.mean l = Some μ → (∀ x, x ∈ l → Rabs x <= c) →
  Rabs (fl.exact_mean l - μ) <= 0 * c.
Proof.
  intros Hm _. assert (l ≠ []) as Hne by (intros ->; done).
  rewrite mean_nonempty in Hm by done. injection Hm as <-.
  unfold fl.exact_mean. rewrite Rminus_diag, Rabs_R0. lra.
Qed.

Lemma id_error (x : R) : Rabs (id x - x) <= 0 * Rabs x.
Proof. unfold id. rewrite Rminus_diag, Rabs_R0. lra. Qed.

End rounding_error.

(** ** The normalized time *)
Section normalized_time.
Local Open Scope R_scope.
Context (u e : R) (rnd : R → R) (np_mean : list R → R).

(** What rounding to the nearest [float64] and [np.mean] are taken to
    satisfy: a relative error of at most [u] for each operation, and a mean
    that is off by at most [e] times the largest absolute value it
    averages. *)
Hypothesis u_nonneg : 0 <= u.
Hypothesis rnd_error : ∀ x, Rabs (rnd x - x) <= u * Rabs x.
Hypothesis np_mean_error :
  ∀ l μ c, np.mean l = Some μ → (∀ x, x ∈ l → Rabs x <= c) →
           Rabs (np_mean l - μ) <= e * c.

Lemma t_rel_shift (time : list R) (t0 c : R) :
  fl.t_rel rnd (np.add_scalar time c) (t0 + c) = fl.t_rel rnd time t0.
Proof.
  unfold fl.t_rel, np.add_scalar. rewrite <- list_fmap_compose.
  apply list_fmap_ext. intros _ t _. simpl. f_equal. lra.
Qed.

Lemma t_norm_shift (time : list R) (t0 c : R) :
  fl.t_norm rnd np_mean (np.add_scalar time c) (t0 + c)
  = fl.t_norm rnd np_mean time t0.
Proof. unfold fl.t_norm, fl.t_ref. by rewrite !t_rel_shift. Qed.

Lemma rnd_close (x c : R) : Rabs x <= c → Rabs (rnd x - x) <= u * c.
Proof.
  intros Hx. pose proof (rnd_error x) as Hr.
  assert (u * Rabs x <= u * c) by (by apply Rmult_le_compat_l). lra.
Qed.


End normalized_time.

Section normalized_time_examples.
Local Open Scope R_scope.

Lemma example_time_spread (t : R) : t ∈ [1; 2; 4] → Rabs (t - 1) <= 3.
Proof.
  intros Ht. apply Rabs_le_between.
  repeat (apply elem_of_cons in Ht as [-> | Ht]); [lra .. |].
  by apply elem_of_nil in Ht.
Qed.


End normalized_time_examples.

(** The same cell on [float64] values. *)
Section normalized_time_binary64.
#[local] Set Warnings "-inexact-float".
Local Open Scope float_scope.


End normalized_time_binary64.

(** ** Order statistics *)
Section order_statistics.
Local Open Scope R_scope.

Lemma sort_perm (a : list R) : np.sort a ≡ₚ a.
Proof. apply merge_sort_Permutation. Qed.

Lemma sort_length (a : list R) : length (np.sort a) = length a.
Proof. apply Permutation_length, sort_perm. Qed.

Lemma sort_sorted (a : list R) : StronglySorted Rle (np.sort a).
Proof. apply (StronglySorted_merge_sort Rle). Qed.

(** The sorted array depends on the elements only, not on their order. *)
Lemma sort_of_perm (a b : list R) : a ≡ₚ b → np.sort a = np.sort b.
Proof.
  intros Hab. apply (StronglySorted_unique Rle); try apply sort_sorted.
  by rewrite !sort_perm.
Qed.

Lemma sorted_lookup_le (s : list R) (i j : nat) (x y : R) :
  StronglySorted Rle s → (i ≤ j)%nat →
  s !! i = Some x → s !! j = Some y → x <= y.
Proof.
  intros Hs. revert i j. induction Hs as [| z s Hs IH Hz]; intros i j Hij Hi Hj.
  - done.
  - destruct i as [| i], j as [| j]; simplify_eq/=.
    + lra.
    + rewrite Forall_forall in Hz. apply Hz. by eapply list_elem_of_lookup_2.
    + lia.
    + apply (IH i j); [lia | done | done].
Qed.

Lemma mean_singleton (x : R) : np.mean [x] = Some x.
Proof. unfold np.mean, np.sum. simpl. f_equal. field. Qed.

Lemma mean_pair (x y : R) : np.mean [x; y] = Some ((x + y) / 2).
Proof. unfold np.mean, np.sum. simpl. f_equal. field. Qed.

(** The middle slice of an array of odd length [2m+1] and of even length
    [2m+2]. *)
Lemma middle_odd (s : list R) (m : nat) (x : R) :
  length s = (1 + 2 * m)%nat → s !! m = Some x → np.middle s = [x].
Proof.
  intros Hn Hx. unfold np.middle. rewrite Hn, Nat.even_add_mul_2.
  replace ((1 + 2 * m) / 2)%nat with m
    by (apply (Nat.div_unique _ 2 m 1); lia).
  simpl. by rewrite (drop_S _ _ _ Hx).
Qed.

Lemma middle_even (s : list R) (m : nat) (x y : R) :
  length s = (2 + 2 * m)%nat → s !! m = Some x → s !! S m = Some y →
  np.middle s = [x; y].
Proof.
  intros Hn Hx Hy. unfold np.middle. rewrite Hn, Nat.even_add_mul_2.
  replace ((2 + 2 * m) / 2 - 1)%nat with m.
  - simpl. by rewrite (drop_S _ _ _ Hx), (drop_S _ _ _ Hy).
  - replace ((2 + 2 * m) / 2)%nat with (S m); [lia |].
    apply (Nat.div_unique _ 2 (S m) 0); lia.
Qed.

(** A length is zero, odd or even. *)
Lemma length_cases (n : nat) :
  n = 0%nat ∨ (∃ m, n = (1 + 2 * m)%nat) ∨ (∃ m, n = (2 + 2 * m)%nat).
Proof.
  destruct n as [| n]; [by left | right].
  destruct (Nat.Even_or_Odd n) as [[m ->] | [m ->]].
  - left. exists m. lia.
  - right. exists m. lia.
Qed.

(** The median is [nan] for the empty array only. *)
Lemma median_None (a : list R) : np.median a = None ↔ a = [].
Proof.
  unfold np.median. split.
  - intros Hm. apply mean_None in Hm.
    pose proof (sort_length a) as Hlen.
    destruct (length_cases (length (np.sort a))) as [H0 | [[m Hn] | [m Hn]]].
    + rewrite H0 in Hlen. symmetry in Hlen. by apply length_zero_iff_nil.
    + destruct (lookup_lt_is_Some_2 (np.sort a) m) as [x Hx]; [lia |].
      by rewrite (middle_odd _ m x Hn Hx) in Hm.
    + destruct (lookup_lt_is_Some_2 (np.sort a) m) as [x Hx]; [lia |].
      destruct (lookup_lt_is_Some_2 (np.sort a) (S m)) as [y Hy]; [lia |].
      by rewrite (middle_even _ m x y Hn Hx Hy) in Hm.
  - by intros ->.
Qed.

Lemma median_nonempty (a : list R) : a ≠ [] → is_Some (np.median a).
Proof.
  intros Ha. destruct (np.median a) eqn:Hm; [by eexists |].
  by apply median_None in Hm.
Qed.

End order_statistics.

(** ** Relative flux *)
Section relative_flux.
Local Open Scope R_scope.

Lemma Rpower_pos (x y : R) : 0 < Rpower x y.
Proof. unfold Rpower. apply exp_pos. Qed.

Lemma log_10_pos : 0 < np.log 10.
Proof.
  unfold np.log. rewrite <- ln_1. apply ln_increasing; lra.
Qed.

(** The flux of one observation, once the median magnitude is known. *)
Lemma flux_rel_lookup (mag : list R) (m0 : R) (i : nat) (m : R) :
  mag0 mag = Some m0 → mag !! i = Some m →
  flux_rel mag !! i = Some (Rpower 10 (-0.4 * (m - m0)) - 1).
Proof.
  intros H0 Hi. unfold flux_rel. rewrite H0.
  unfold np.sub_reduced, np.sub_scalar, np.power10, np.scale.
  by rewrite !list_lookup_fmap, Hi.
Qed.

Lemma flux_rel_length (mag : list R) : mag ≠ [] → length (flux_rel mag) = length mag.
Proof.
  intros Ha. destruct (median_nonempty mag Ha) as [m0 H0].
  unfold flux_rel, mag0. rewrite H0.
  unfold np.sub_reduced, np.sub_scalar, np.power10, np.scale.
  by rewrite !length_fmap.
Qed.

(** The error array when the flux and the errors have one length. *)
Lemma flux_err_same_length (flux merr : list R) :
  length flux = length merr →
  flux_err flux merr
  = inr (zip_with Rmult
           (np.scale (0.4 * np.log 10) (np.add_scalar flux 1)) merr).
Proof.
  intros Hlen. unfold flux_err, np.mul.
  rewrite decide_True; [done |].
  unfold np.scale, np.add_scalar. by rewrite !length_fmap.
Qed.

End relative_flux.

(** ** Relative flux in rounded arithmetic *)
Section relative_flux_rounded.
Local Open Scope R_scope.
Context (u e ep : R) (rnd : R → R) (np_mean : list R → R)
  (pow10 : R → R) (log10 : R).

(** What the arithmetic is taken to satisfy.  Rounding to the nearest
    [float64] has a relative error of at most [u], is monotone and leaves 0
    and -1 as they are; [np.mean] is off by at most [e] times the largest
    absolute value it averages; [10 ** x] has a relative error of at most
    [ep] and is 1 at 0; and [np.log(10)] is [ln 10] rounded. *)
Hypothesis u_bounds : 0 <= u < 1.
Hypothesis ep_bounds : 0 <= ep <= 1.
Hypothesis rnd_error : ∀ x, Rabs (rnd x - x) <= u * Rabs x.
Hypothesis rnd_mono : ∀ x y, x <= y → rnd x <= rnd y.
Hypothesis rnd_0 : rnd 0 = 0.
Hypothesis rnd_opp_1 : rnd (-1) = -1.
Hypothesis np_mean_error :
  ∀ l μ c, np.mean l = Some μ → (∀ x, x ∈ l → Rabs x <= c) →
           Rabs (np_mean l - μ) <= e * c.
Hypothesis pow10_error :
  ∀ x, Rabs (pow10 x - Rpower 10 x) <= ep * Rpower 10 x.
Hypothesis pow10_0 : pow10 0 = 1.
Hypothesis log10_error : Rabs (log10 - ln 10) <= u * Rabs (ln 10).

(** Relative errors of a product and of a rounded value. *)
Lemma close_mult (a a' b b' ea eb : R) :
  Rabs (a - a') <= ea * Rabs a' → Rabs (b - b') <= eb * Rabs b' →
  Rabs (a * b - a' * b') <= (ea + eb + ea * eb) * Rabs (a' * b').
Proof.
  intros Ha Hb. rewrite Rabs_mult.
  replace (a * b - a' * b')
    with ((a - a') * b' + a' * (b - b') + (a - a') * (b - b')) by ring.
  pose proof (Rabs_triang ((a - a') * b' + a' * (b - b'))
                ((a - a') * (b - b'))) as H1.
  pose proof (Rabs_triang ((a - a') * b') (a' * (b - b'))) as H2.
  rewrite !Rabs_mult in H1. rewrite !Rabs_mult in H2.
  pose proof (Rabs_pos (a - a')) as P1. pose proof (Rabs_pos (b - b')) as P2.
  pose proof (Rabs_pos a') as P3. pose proof (Rabs_pos b') as P4.
  assert (Rabs (a - a') * Rabs b' <= ea * Rabs a' * Rabs b') as H3
    by (by apply Rmult_le_compat_r).
  assert (Rabs a' * Rabs (b - b') <= Rabs a' * (eb * Rabs b')) as H4
    by (by apply Rmult_le_compat_l).
  assert (Rabs (a - a') * Rabs (b - b') <= ea * Rabs a' * (eb * Rabs b'))
    as H5 by (apply Rmult_le_compat; done).
  lra.
Qed.

Lemma close_rnd (y y' ε : R) :
  Rabs (y - y') <= ε * Rabs y' →
  Rabs (rnd y - y') <= (ε + u + ε * u) * Rabs y'.
Proof.
  intros Hy. pose proof (rnd_error y) as Hr.
  pose proof (Rabs_triang (rnd y - y) (y - y')) as H1.
  replace (rnd y - y + (y - y')) with (rnd y - y') in H1 by ring.
  pose proof (Rabs_triang (y - y') y') as H2.
  replace (y - y' + y') with y in H2 by ring.
  assert (u * Rabs y <= u * (ε * Rabs y' + Rabs y')) as H3
    by (apply Rmult_le_compat_l; lra).
  lra.
Qed.

(** The exponent is rounded three times: the literal, the difference and
    the product. *)
Lemma exponent_error (m m0 : R) :
  Rabs (fl.exponent rnd m m0 - (-0.4 * (m - m0)))
  <= ((1 + u) ^ 3 - 1) * Rabs (-0.4 * (m - m0)).
Proof.
  unfold fl.exponent.
  assert (Rabs (- rnd 0.4 - (-0.4)) <= u * Rabs (-0.4)) as Hc.
  { pose proof (rnd_error 0.4) as H.
    assert (Rabs (-0.4) = 0.4) as ->
      by (unfold Rabs; destruct (Rcase_abs (-0.4)); lra).
    rewrite (Rabs_pos_eq 0.4) in H by lra.
    apply Rabs_le_between in H. apply Rabs_le_between. lra. }
  pose proof (rnd_error (m - m0)) as Hd.
  eapply Rle_trans;
    [exact (close_rnd _ _ _ (close_mult _ _ _ _ _ _ Hc Hd)) |].
  apply Req_le. ring.
Qed.

Lemma pow10_nonneg (x : R) : 0 <= pow10 x.
Proof.
  pose proof (pow10_error x) as H. apply Rabs_le_between in H.
  pose proof (Rpower_pos 10 x) as Hp.
  assert (ep * Rpower 10 x <= 1 * Rpower 10 x)
    by (apply Rmult_le_compat_r; lra).
  lra.
Qed.

(** The computed power lies in a band around the power of the exact
    exponent. *)
Lemma pow10_band (x X η : R) :
  Rabs (x - X) <= η →
  (1 - ep) * Rpower 10 (X - η) <= pow10 x <= (1 + ep) * Rpower 10 (X + η).
Proof.
  intros Hx. apply Rabs_le_between in Hx.
  pose proof (pow10_error x) as H. apply Rabs_le_between in H.
  assert (Rpower 10 (X - η) <= Rpower 10 x) as H1
    by (apply Rle_Rpower; lra).
  assert (Rpower 10 x <= Rpower 10 (X + η)) as H2
    by (apply Rle_Rpower; lra).
  pose proof (Rpower_pos 10 x) as Hp.
  pose proof (Rpower_pos 10 (X - η)) as Hp1.
  pose proof (Rpower_pos 10 (X + η)) as Hp2.
  assert ((1 - ep) * Rpower 10 (X - η) <= (1 - ep) * Rpower 10 x)
    by (apply Rmult_le_compat_l; lra).
  assert ((1 + ep) * Rpower 10 x <= (1 + ep) * Rpower 10 (X + η))
    by (apply Rmult_le_compat_l; lra).
  lra.
Qed.

(** The flux of one computed power [p], plus one: [(p - 1) + 1] with two
    roundings. *)
Lemma flux_plus_one (p : R) :
  0 <= p →
  Rabs (rnd (rnd (p - 1) + 1) - p) <= u * (1 + u) * Rabs (p - 1) + u * p ∧
  0 <= rnd (rnd (p - 1) + 1) ∧
  (u < p → 0 < rnd (rnd (p - 1) + 1)).
Proof.
  intros Hp. pose proof (rnd_error (p - 1)) as H1.
  pose proof (rnd_error (rnd (p - 1) + 1)) as H2.
  pose proof (Rabs_pos (p - 1)) as P1.
  assert (Rabs (rnd (p - 1) + 1) <= p + u * Rabs (p - 1)) as H3.
  { apply Rabs_le_between in H1. apply Rabs_le_between. lra. }
  assert (u * Rabs (rnd (p - 1) + 1) <= u * (p + u * Rabs (p - 1))) as H4
    by (apply Rmult_le_compat_l; lra).
  split; [| split].
  - assert (Rabs (rnd (rnd (p - 1) + 1) - (rnd (p - 1) + 1))
            <= u * (p + u * Rabs (p - 1))) as H5 by lra.
    apply Rabs_le_between in H1, H5. apply Rabs_le_between. lra.
  - assert (-1 <= rnd (p - 1)) as H5
      by (rewrite <- rnd_opp_1; apply rnd_mono; lra).
    rewrite <- rnd_0. apply rnd_mono. lra.
  - intros Hup.
    assert (0 < rnd (p - 1) + 1) as H5.
    { apply Rabs_le_between in H1. unfold Rabs in H1.
      destruct (Rcase_abs (p - 1)); nra. }
    apply Rabs_le_between in H2. rewrite (Rabs_pos_eq _ (Rlt_le _ _ H5)) in H2.
    nra.
Qed.

Lemma middle_subseteq (s : list R) : np.middle s ⊆ s.
Proof.
  unfold np.middle. destruct (Nat.even (length s)).
  - etrans; [apply subseteq_take | apply subseteq_drop].
  - etrans; [apply subseteq_take | apply subseteq_drop].
Qed.

(** The computed median is the median up to the accuracy of [np.mean]. *)
Lemma mag0_error (mag : list R) (med M : R) :
  np.median mag = Some med → (∀ m, m ∈ mag → Rabs m <= M) →
  Rabs (fl.mag0 np_mean mag - med) <= e * M.
Proof.
  intros Hmed HM. unfold fl.mag0. apply np_mean_error; [exact Hmed |].
  intros x Hx. apply HM. rewrite <- (sort_perm mag).
  by apply middle_subseteq.
Qed.

Lemma fl_flux_err_same_length (flux merr : list R) :
  length flux = length merr →
  fl.flux_err rnd log10 flux merr
  = inr (zip_with (λ x y, rnd (x * y))
           ((λ f, rnd (rnd (rnd 0.4 * log10) * rnd (f + 1))) <$> flux) merr).
Proof.
  intros Hlen. unfold fl.flux_err, fl.mul.
  rewrite decide_True; [done |]. by rewrite length_fmap.
Qed.

Lemma rnd_nonneg (x : R) : 0 <= x → 0 <= rnd x.
Proof. intros Hx. rewrite <- rnd_0. by apply rnd_mono. Qed.

Lemma log10_nonneg : 0 <= log10.
Proof.
  pose proof log_10_pos as Hl. unfold np.log in Hl.
  pose proof log10_error as H. rewrite (Rabs_pos_eq (ln 10)) in H by lra.
  apply Rabs_le_between in H.
  assert (u * ln 10 <= 1 * ln 10) by (apply Rmult_le_compat_r; lra).
  lra.
Qed.

Lemma close_refl (x : R) : Rabs (x - x) <= 0 * Rabs x.
Proof. rewrite Rminus_diag, Rabs_R0. lra. Qed.

(** The error array is rounded five times: the literal, the logarithm, and
    the three products. *)
Lemma flux_err_error (f1 er : R) :
  Rabs (rnd (rnd (rnd (rnd 0.4 * log10) * f1) * er)
        - 0.4 * ln 10 * f1 * er)
  <= ((1 + u) ^ 5 - 1) * Rabs (0.4 * ln 10 * f1 * er).
Proof.
  pose proof (rnd_error 0.4) as Hc.
  assert (Rabs (rnd (rnd 0.4 * log10) - 0.4 * ln 10)
          <= ((1 + u) ^ 3 - 1) * Rabs (0.4 * ln 10)) as K1.
  { eapply Rle_trans;
      [exact (close_rnd _ _ _ (close_mult _ _ _ _ _ _ Hc log10_error)) |].
    apply Req_le. ring. }
  assert (Rabs (rnd (rnd (rnd 0.4 * log10) * f1) - 0.4 * ln 10 * f1)
          <= ((1 + u) ^ 4 - 1) * Rabs (0.4 * ln 10 * f1)) as K2.
  { eapply Rle_trans;
      [exact (close_rnd _ _ _ (close_mult _ _ _ _ _ _ K1 (close_refl f1))) |].
    apply Req_le. ring. }
  eapply Rle_trans;
    [exact (close_rnd _ _ _ (close_mult _ _ _ _ _ _ K2 (close_refl er))) |].
  apply Req_le. ring.
Qed.


End relative_flux_rounded.

Section relative_flux_examples.
Local Open Scope R_scope.

Lemma example_mag_bound (m : R) : m ∈ [12; 13; 11] → Rabs m <= 13.
Proof.
  intros Hm. apply Rabs_le_between.
  repeat (apply elem_of_cons in Hm as [-> | Hm]); [lra .. |].
  by apply elem_of_nil in Hm.
Qed.

Lemma exact_power_error (x : R) :
  Rabs (Rpower 10 x - Rpower 10 x) <= 0 * Rpower 10 x.
Proof. rewrite Rminus_diag, Rabs_R0. lra. Qed.


End relative_flux_examples.

(** The same statements on [float64] values. *)
Section relative_flux_binary64.
#[local] Set Warnings "-inexact-float".
Local Open Scope float_scope.


End relative_flux_binary64.


(** ** The exposure time *)
Section exposure_time.
Local Open Scope R_scope.

Lemma diff_length (a : list R) : length (np.diff a) = (length a - 1)%nat.
Proof.
  unfold np.diff. rewrite length_zip_with.
  destruct a as [| x a]; cbn [length tail]; lia.
Qed.

Lemma t_norm_length (time : list R) (t0 : R) :
  length (t_norm time t0) = length time.
Proof.
  unfold t_norm, t_ref, t_rel. destruct time as [| t rest]; [done |].
  rewrite mean_nonempty by done.
  unfold np.sub_reduced. by rewrite !sub_scalar_length.
Qed.

(** The exposure time is [nan] exactly when there are fewer than two
    timestamps. *)
Lemma texp_defined (time : list R) (t0 : R) :
  is_Some (texp (t_norm time t0)) ↔ (2 ≤ length time)%nat.
Proof.
  unfold texp. split.
  - intros [x Hx].
    destruct (decide (np.diff (t_norm time t0) = [])) as [Hd | Hd].
    + apply median_None in Hd. congruence.
    + assert (length (np.diff (t_norm time t0)) ≠ 0%nat) as Hl
        by (by rewrite length_zero_iff_nil).
      rewrite diff_length, t_norm_length in Hl. lia.
  - intros Hn. apply median_nonempty. intros Hd.
    apply (f_equal length) in Hd.
    rewrite diff_length, t_norm_length in Hd. simpl in Hd. lia.
Qed.

(** C9. Preprocessing and the model need two rows: [time[0]] raises
    [IndexError] exactly on the empty column; with one row it returns but the
    differences are empty and their median, the exposure time, is [nan];
    with two rows or more the index access returns and the median is a
    number. *)
Theorem two_rows_needed (time : list R) :
  (length time = 0%nat ↔ np.item0 time = inl IndexError) ∧
  (length time = 1%nat ↔
     ∃ t0, np.item0 time = inr t0 ∧ texp (t_norm time t0) = None) ∧
  ((2 ≤ length time)%nat ↔
     ∃ t0 x, np.item0 time = inr t0 ∧ texp (t_norm time t0) = Some x).
Proof.
  split; [| split].
  - destruct time; simpl; split; intros H; (done || discriminate H).
  - split.
    + intros Hn. destruct time as [| t0 rest]; [done |].
      exists t0. split; [done |].
      destruct (texp (t_norm (t0 :: rest) t0)) eqn:Ht; [| done].
      assert (2 ≤ length (t0 :: rest))%nat; [| lia].
      apply (texp_defined _ t0). by eexists.
    + intros (t0 & H0 & Ht). destruct time as [| t rest]; [done |].
      simpl in H0. simplify_eq.
      destruct (decide (2 ≤ length (t0 :: rest))%nat) as [H2 | H2].
      * apply (texp_defined _ t0) in H2. destruct H2 as [x Hx]. congruence.
      * simpl in *. lia.
  - split.
    + intros Hn. destruct time as [| t0 rest]; [simpl in Hn; lia |].
      destruct (proj2 (texp_defined (t0 :: rest) t0) Hn) as [x Hx].
      by exists t0, x.
    + intros (t0 & x & _ & Hx). apply (texp_defined _ t0). by eexists.
Qed.

End exposure_time.

(** ** Percentiles of a sorted array *)
Section percentiles.
Local Open Scope R_scope.

Lemma lerp_between (x y g : R) :
  x <= y → 0 <= g <= 1 → x <= np.lerp x y g <= y.
Proof. unfold np.lerp. intros Hxy [Hg0 Hg1]. split; nra. Qed.

Lemma lerp_mono (x y g1 g2 : R) :
  x <= y → g1 <= g2 → np.lerp x y g1 <= np.lerp x y g2.
Proof. unfold np.lerp. intros Hxy Hg. nra. Qed.

Lemma INR_100 : INR 100 = 100.
Proof. rewrite INR_IZR_INZ. reflexivity. Qed.

Lemma fraction_bounds (g : nat) : (g < 100)%nat → 0 <= INR g / 100 <= 1.
Proof.
  intros Hg. pose proof (pos_INR g) as H0.
  assert (INR g <= 100) as H1 by (rewrite <- INR_100; apply le_INR; lia).
  split.
  - apply Rmult_le_pos; lra.
  - apply (Rmult_le_reg_r 100); [lra |]. unfold Rdiv.
    rewrite Rmult_assoc, Rinv_l by lra. lra.
Qed.

(** The interpolation at the virtual index [k/100], for [k] up to
    [100 (n-1)]: it is defined and it lies between the elements at the floor
    of the index and after it. *)
Definition interpolate (s : list R) (k : nat) : option R :=
  x ← s !! (k / 100)%nat;
  y ← s !! Nat.min (k / 100 + 1) (length s - 1);
  Some (np.lerp x y (INR (k mod 100) / 100)).

Lemma percentile_sorted_interpolate (s : list R) (q : nat) :
  np.percentile_sorted s q = interpolate s (q * (length s - 1)).
Proof. reflexivity. Qed.

Lemma interpolate_between (s : list R) (k : nat) :
  StronglySorted Rle s → (k ≤ 100 * (length s - 1))%nat → s ≠ [] →
  ∃ x y v,
    s !! (k / 100)%nat = Some x ∧
    s !! Nat.min (k / 100 + 1) (length s - 1) = Some y ∧
    interpolate s k = Some v ∧ x <= v <= y.
Proof.
  intros Hs Hk Hne.
  assert (0 < length s)%nat as Hn by (destruct s; [done | simpl; lia]).
  pose proof (Nat.div_mod_eq k 100) as Hdm.
  pose proof (Nat.mod_upper_bound k 100 ltac:(lia)) as Hg.
  destruct (lookup_lt_is_Some_2 s (k / 100)) as [x Hx]; [lia |].
  destruct (lookup_lt_is_Some_2 s (Nat.min (k / 100 + 1) (length s - 1)))
    as [y Hy]; [lia |].
  exists x, y, (np.lerp x y (INR (k mod 100) / 100)).
  split; [done |]. split; [done |]. split.
  - unfold interpolate. rewrite Hx, Hy. reflexivity.
  - apply lerp_between; [| by apply fraction_bounds].
    eapply (sorted_lookup_le s); [done | | exact Hx | exact Hy]. lia.
Qed.

(** The interpolation grows with the virtual index. *)
Lemma interpolate_mono (s : list R) (k1 k2 : nat) :
  StronglySorted Rle s → s ≠ [] →
  (k1 ≤ k2)%nat → (k2 ≤ 100 * (length s - 1))%nat →
  ∃ v1 v2, interpolate s k1 = Some v1 ∧ interpolate s k2 = Some v2 ∧ v1 <= v2.
Proof.
  intros Hs Hne H12 H2.
  destruct (interpolate_between s k1 Hs ltac:(lia) Hne)
    as (x1 & y1 & v1 & Hx1 & Hy1 & Hv1 & Hb1).
  destruct (interpolate_between s k2 Hs H2 Hne)
    as (x2 & y2 & v2 & Hx2 & Hy2 & Hv2 & Hb2).
  exists v1, v2. split; [done |]. split; [done |].
  pose proof (Nat.div_mod_eq k1 100) as Hdm1.
  pose proof (Nat.div_mod_eq k2 100) as Hdm2.
  pose proof (Nat.mod_upper_bound k1 100 ltac:(lia)) as Hg1.
  pose proof (Nat.mod_upper_bound k2 100 ltac:(lia)) as Hg2.
  destruct (decide (k1 / 100 = k2 / 100)%nat) as [Heq | Hlt].
  - assert (INR (k1 mod 100) <= INR (k2 mod 100)) as Hg
      by (apply le_INR; lia).
    unfold interpolate in Hv1, Hv2.
    rewrite Hx1, Hy1 in Hv1. rewrite Hx2, Hy2 in Hv2.
    cbn [mbind option_bind] in Hv1, Hv2.
    rewrite Heq in Hx1, Hy1.
    assert (x1 = x2) as -> by congruence.
    assert (y1 = y2) as -> by congruence.
    assert (v1 = np.lerp x2 y2 (INR (k1 mod 100) / 100)) as ->
      by congruence.
    assert (v2 = np.lerp x2 y2 (INR (k2 mod 100) / 100)) as ->
      by congruence.
    apply lerp_mono; [lra |].
    unfold Rdiv. apply Rmult_le_compat_r; lra.
  - assert (y1 <= x2); [| lra].
    eapply (sorted_lookup_le s); [done | | exact Hy1 | exact Hx2]. lia.
Qed.

(** Percentiles grow with the percentage. *)
Lemma percentile_mono (a : list R) (q1 q2 : nat) :
  a ≠ [] → (q1 ≤ q2)%nat → (q2 ≤ 100)%nat →
  ∃ v1 v2,
    np.percentile a q1 = Some v1 ∧ np.percentile a q2 = Some v2 ∧ v1 <= v2.
Proof.
  intros Ha H12 H2. unfold np.percentile.
  rewrite !percentile_sorted_interpolate.
  apply interpolate_mono.
  - apply sort_sorted.
  - intros Hs. apply (f_equal length) in Hs. rewrite sort_length in Hs.
    by destruct a.
  - by apply Nat.mul_le_mono_r.
  - by apply Nat.mul_le_mono_r.
Qed.

End percentiles.

Section median_percentile.
Local Open Scope R_scope.

(** The median is the 50th percentile. *)
Lemma median_percentile_50 (a : list R) : np.median a = np.percentile a 50.
Proof.
  unfold np.median, np.percentile.
  rewrite percentile_sorted_interpolate.
  generalize (np.sort a). intros s.
  destruct (length_cases (length s)) as [H0 | [[m Hn] | [m Hn]]].
  - apply length_zero_iff_nil in H0. by subst s.
  - destruct (lookup_lt_is_Some_2 s m) as [x Hx]; [lia |].
    destruct (lookup_lt_is_Some_2 s (Nat.min (m + 1) (length s - 1)))
      as [y Hy]; [lia |].
    rewrite (middle_odd s m x Hn Hx), mean_singleton.
    replace (50 * (length s - 1))%nat with (m * 100)%nat by lia.
    unfold interpolate.
    rewrite Nat.div_mul, Nat.Div0.mod_mul, Hx, Hy by lia.
    cbn [mbind option_bind INR]. f_equal. unfold np.lerp. lra.
  - destruct (lookup_lt_is_Some_2 s m) as [x Hx]; [lia |].
    destruct (lookup_lt_is_Some_2 s (S m)) as [y Hy]; [lia |].
    rewrite (middle_even s m x y Hn Hx Hy), mean_pair.
    replace (50 * (length s - 1))%nat with (100 * m + 50)%nat by lia.
    unfold interpolate.
    replace ((100 * m + 50) / 100)%nat with m
      by (apply (Nat.div_unique _ 100 m 50); lia).
    replace ((100 * m + 50) mod 100)%nat with 50%nat
      by (apply (Nat.mod_unique _ 100 m 50); lia).
    replace (Nat.min (m + 1) (length s - 1)) with (S m) by lia.
    rewrite Hx, Hy. cbn [mbind option_bind]. f_equal.
    assert (INR 50 = 50) as -> by (rewrite INR_IZR_INZ; reflexivity).
    unfold np.lerp. lra.
Qed.

(** The 16th percentile, the median and the 84th percentile of a non-empty
    array are numbers, in this order. *)
Lemma median_between_percentiles (a : list R) :
  a ≠ [] →
  ∃ lo med hi,
    np.percentile a 16 = Some lo ∧ np.median a = Some med ∧
    np.percentile a 84 = Some hi ∧ lo <= med <= hi.
Proof.
  intros Ha.
  destruct (percentile_mono a 16 50 Ha) as (lo & med & Hlo & Hmed & H1);
    [lia | lia |].
  destruct (percentile_mono a 50 84 Ha) as (med' & hi & Hmed' & Hhi & H2);
    [lia | lia |].
  assert (med' = med) as -> by congruence.
  exists lo, med, hi. rewrite median_percentile_50. done.
Qed.

End median_percentile.

(** ** Running statements *)
Section running.
Implicit Types st : state.

Lemma bind_run {A B} (m : nb A) (f : A → nb B) st x st1 :
  m st = (inr x, st1) → (m ≫= f) st = f x st1.
Proof. intros Hm. unfold mbind, nb_bind. by rewrite Hm. Qed.

Lemma bind_raise {A B} (m : nb A) (f : A → nb B) st e st1 :
  m st = (inl e, st1) → (m ≫= f) st = (inl e, st1).
Proof. intros Hm. unfold mbind, nb_bind. by rewrite Hm. Qed.

Lemma bind_inv {A B} (m : nb A) (f : A → nb B) st y st' :
  (m ≫= f) st = (inr y, st') →
  ∃ x st1, m st = (inr x, st1) ∧ f x st1 = (inr y, st').
Proof.
  unfold mbind, nb_bind. destruct (m st) as [[e | x] st1]; [done |].
  intros Hf. by exists x, st1.
Qed.

Lemma bind_assoc {A B C} (m : nb A) (f : A → nb B) (g : B → nb C) st :
  ((m ≫= f) ≫= g) st = (m ≫= λ x, f x ≫= g) st.
Proof. unfold mbind, nb_bind. by destruct (m st) as [[e | x] st1]. Qed.

Lemma assign_run x v st : assign x v st = (inr (), set_global x v st).
Proof. reflexivity. Qed.

Lemma record_run c st : record c st = (inr (), log_call c st).
Proof. reflexivity. Qed.

Lemma lift_run {A} (r : result A) x st : r = inr x → lift r st = (inr x, st).
Proof. by intros ->. Qed.

Lemma lift_raise {A} (r : result A) e st : r = inl e → lift r st = (inl e, st).
Proof. by intros ->. Qed.

Lemma ret_run {A} (x : A) st : (mret x : nb A) st = (inr x, st).
Proof. reflexivity. Qed.

Lemma lookup_name_run x v st :
  globals st !! x = Some v → lookup_name x st = (inr v, st).
Proof. intros Hx. unfold lookup_name. by rewrite Hx. Qed.

Lemma get_arr_run x a st :
  globals st !! x = Some (VArr a) → get_arr x st = (inr a, st).
Proof.
  intros Hx. unfold get_arr. by rewrite (bind_run _ _ _ _ _ (lookup_name_run _ _ _ Hx)).
Qed.

Lemma get_num_run x c st :
  globals st !! x = Some (VNum c) → get_num x st = (inr c, st).
Proof.
  intros Hx. unfold get_num. by rewrite (bind_run _ _ _ _ _ (lookup_name_run _ _ _ Hx)).
Qed.

Lemma get_model_run x m st :
  globals st !! x = Some (VModel m) → get_model x st = (inr m, st).
Proof.
  intros Hx. unfold get_model. by rewrite (bind_run _ _ _ _ _ (lookup_name_run _ _ _ Hx)).
Qed.

Lemma get_trace_run x tr st :
  globals st !! x = Some (VTrace tr) → get_trace x st = (inr tr, st).
Proof.
  intros Hx. unfold get_trace. by rewrite (bind_run _ _ _ _ _ (lookup_name_run _ _ _ Hx)).
Qed.

Lemma get_nan_arr_run x a st :
  globals st !! x = Some (VNanArr a) → get_nan_arr x st = (inr a, st).
Proof.
  intros Hx. unfold get_nan_arr. by rewrite (bind_run _ _ _ _ _ (lookup_name_run _ _ _ Hx)).
Qed.

Lemma get_inference_data_run x g st :
  globals st !! x = Some (VInferenceData g) →
  get_inference_data x st = (inr g, st).
Proof.
  intros Hx. unfold get_inference_data.
  by rewrite (bind_run _ _ _ _ _ (lookup_name_run _ _ _ Hx)).
Qed.

Lemma lookup_set_eq x v st : globals (set_global x v st) !! x = Some v.
Proof. apply lookup_insert_eq. Qed.

Lemma lookup_set_ne x y v st :
  x ≠ y → globals (set_global x v st) !! y = globals st !! y.
Proof. apply lookup_insert_ne. Qed.

Lemma lookup_log c y st : globals (log_call c st) !! y = globals st !! y.
Proof. reflexivity. Qed.

Lemma register_run v m st :
  globals st !! "model" = Some (VModel m) →
  register v st
  = (inr (pm.ERef (pm.rv_name v)), set_global "model" (VModel (m ++ [v])) st).
Proof.
  intros Hm. unfold register.
  by rewrite (bind_run _ _ _ _ _ (get_model_run _ _ _ Hm)).
Qed.

Lemma getitem_run (df : pd.DataFrame) (c : string) (a : list R) :
  df !! c = Some a → pd.getitem df c = inr a.
Proof. intros Hc. unfold pd.getitem. by rewrite Hc. Qed.

End running.

(** Looking a name up in a state built by assignments. *)
Ltac ns_lookup :=
  repeat first [ rewrite lookup_set_ne by done | rewrite lookup_log ];
  first [ apply lookup_set_eq | eassumption ].

(** One statement of a block, and the last one. *)
Ltac run_one :=
  first
    [ apply assign_run
    | apply record_run
    | apply ret_run
    | apply get_arr_run; ns_lookup
    | apply get_num_run; ns_lookup
    | apply get_model_run; ns_lookup
    | apply get_trace_run; ns_lookup
    | apply get_nan_arr_run; ns_lookup
    | apply get_inference_data_run; ns_lookup
    | apply register_run; ns_lookup
    | apply lift_run;
      first [ eassumption | reflexivity | apply getitem_run; eassumption ] ].

Ltac step := etrans; [ apply bind_run; run_one | cbv beta ].


(** ** What a statement leaves as it is

    [keeps P m]: the state after [m], returned or raised, is related by [P]
    to the state before. *)
Section frames.
Implicit Types st : state.

Definition keeps {A} (P : relation state) (m : nb A) : Prop :=
  ∀ st, P st (m st).2.

(** The relations: one global name keeps its value, the files stay as they
    are, the calls made so far stay the first calls. *)
Definition same_global (x : string) : relation state :=
  λ st st', globals st' !! x = globals st !! x.

Definition same_files : relation state :=
  λ st st', files st' = files st.

Definition more_calls : relation state :=
  λ st st', calls st `prefix_of` calls st'.

Definition same_calls : relation state :=
  λ st st', calls st' = calls st.

#[global] Instance same_global_preorder x : PreOrder (same_global x).
Proof.
  split; [by intros st |].
  intros s1 s2 s3 H12 H23. unfold same_global in *. congruence.
Qed.

#[global] Instance same_files_preorder : PreOrder same_files.
Proof.
  split; [by intros st |].
  intros s1 s2 s3 H12 H23. unfold same_files in *. congruence.
Qed.

#[global] Instance same_calls_preorder : PreOrder same_calls.
Proof.
  split; [by intros st |].
  intros s1 s2 s3 H12 H23. unfold same_calls in *. congruence.
Qed.

#[global] Instance more_calls_preorder : PreOrder more_calls.
Proof.
  split; [intros st; unfold more_calls; reflexivity |].
  intros s1 s2 s3 H12 H23. unfold more_calls in *. by etrans.
Qed.

Lemma keeps_bind {A B} (P : relation state) `{!PreOrder P}
    (m : nb A) (f : A → nb B) :
  keeps P m → (∀ x, keeps P (f x)) → keeps P (m ≫= f).
Proof.
  intros Hm Hf st. specialize (Hm st). unfold mbind, nb_bind.
  destruct (m st) as [[e | x] st1]; simpl in *; [done |].
  etrans; [exact Hm | apply Hf].
Qed.

(** Statements that leave the whole state as it is. *)
Definition reads {A} (m : nb A) : Prop := ∀ st, (m st).2 = st.

Lemma reads_keeps {A} (P : relation state) `{!Reflexive P} (m : nb A) :
  reads m → keeps P m.
Proof. intros Hm st. by rewrite Hm. Qed.

Lemma reads_bind {A B} (m : nb A) (f : A → nb B) :
  reads m → (∀ x, reads (f x)) → reads (m ≫= f).
Proof.
  intros Hm Hf st. specialize (Hm st). unfold mbind, nb_bind.
  destruct (m st) as [[e | x] st1]; simpl in *; [done |].
  subst st1. apply Hf.
Qed.

Lemma reads_lift {A} (r : result A) : reads (lift r).
Proof. by intros st. Qed.

Lemma reads_ret {A} (x : A) : reads (mret x : nb A).
Proof. by intros st. Qed.

Lemma reads_lookup_name x : reads (lookup_name x).
Proof. intros st. unfold lookup_name. by destruct (globals st !! x). Qed.

Lemma reads_read_file path : reads (read_file path).
Proof. intros st. unfold read_file. by destruct (files st !! path). Qed.

Lemma reads_get_arr x : reads (get_arr x).
Proof.
  apply reads_bind; [apply reads_lookup_name |].
  intros []; first [apply reads_ret | apply reads_lift].
Qed.

Lemma reads_get_num x : reads (get_num x).
Proof.
  apply reads_bind; [apply reads_lookup_name |].
  intros []; first [apply reads_ret | apply reads_lift].
Qed.

Lemma reads_get_model x : reads (get_model x).
Proof.
  apply reads_bind; [apply reads_lookup_name |].
  intros []; first [apply reads_ret | apply reads_lift].
Qed.

Lemma reads_get_trace x : reads (get_trace x).
Proof.
  apply reads_bind; [apply reads_lookup_name |].
  intros []; first [apply reads_ret | apply reads_lift].
Qed.

Lemma reads_get_nan_arr x : reads (get_nan_arr x).
Proof.
  apply reads_bind; [apply reads_lookup_name |].
  intros []; first [apply reads_ret | apply reads_lift].
Qed.

Lemma reads_get_inference_data x : reads (get_inference_data x).
Proof.
  apply reads_bind; [apply reads_lookup_name |].
  intros []; first [apply reads_ret | apply reads_lift].
Qed.

(** Assignments and calls, for each relation. *)
Lemma assign_same_global x y v : y ≠ x → keeps (same_global x) (assign y v).
Proof. intros Hxy st. by apply lookup_set_ne. Qed.

Lemma record_same_global x c : keeps (same_global x) (record c).
Proof. by intros st. Qed.

Lemma assign_same_files y v : keeps same_files (assign y v).
Proof. by intros st. Qed.

Lemma record_same_files c : keeps same_files (record c).
Proof. by intros st. Qed.

Lemma assign_same_calls y v : keeps same_calls (assign y v).
Proof. by intros st. Qed.

Lemma assign_more_calls y v : keeps more_calls (assign y v).
Proof. intros st. unfold more_calls. reflexivity. Qed.

Lemma record_more_calls c : keeps more_calls (record c).
Proof. intros st. by apply prefix_app_r. Qed.

End frames.

(** A block keeps [P] when each of its statements does. *)
Ltac keeps_step :=
  lazymatch goal with
  | |- keeps _ (mbind _ _) => apply keeps_bind; [ apply _ | | intros ? ]
  | |- keeps (same_global _) (assign _ _) => apply assign_same_global; done
  | |- keeps (same_global _) (record _) => apply record_same_global
  | |- keeps same_files (assign _ _) => apply assign_same_files
  | |- keeps same_files (record _) => apply record_same_files
  | |- keeps same_calls (assign _ _) => apply assign_same_calls
  | |- keeps more_calls (assign _ _) => apply assign_more_calls
  | |- keeps more_calls (record _) => apply record_more_calls
  | |- keeps _ _ =>
      apply reads_keeps; [ apply _ | ];
      first [ apply reads_lift | apply reads_ret | apply reads_lookup_name
            | apply reads_read_file | apply reads_get_arr
            | apply reads_get_num | apply reads_get_model
            | apply reads_get_trace | apply reads_get_nan_arr
            | apply reads_get_inference_data ]
  end.

Ltac keeps_tac := repeat keeps_step.

(** ** The cells, run forward *)
Section cells.
Context (L : Libraries).
Implicit Types st : state.

Lemma cell1_run st :
  ∃ st1, cell1 st = (inr (), st1) ∧
         files st1 = files st ∧ calls st1 = calls st.
Proof.
  eexists. split.
  - unfold cell1, import. repeat step. run_one.
  - done.
Qed.

Lemma read_csv_run st path text df :
  files st !! path = Some text → parse_csv L text = inr df →
  read_csv L path st = (inr df, log_call (call_read_csv path) st).
Proof.
  intros Hf Hp. unfold read_csv. step.
  etrans; [apply bind_run | by apply lift_run].
  unfold read_file. simpl. by rewrite Hf.
Qed.

(** The second cell binds the three columns of the file. *)
Lemma cell2_run st text df time mag merr :
  files st !! "data/lc_obs.csv" = Some text → parse_csv L text = inr df →
  df !! "HJD" = Some time → df !! "MAG" = Some mag → df !! "MERR" = Some merr →
  ∃ st2,
    cell2 L st = (inr (), st2) ∧
    globals st2 !! "time" = Some (VArr time) ∧
    globals st2 !! "mag" = Some (VArr mag) ∧
    globals st2 !! "merr" = Some (VArr merr) ∧
    files st2 = files st ∧
    calls st2 = calls st ++ [call_read_csv "data/lc_obs.csv"].
Proof.
  intros Hf Hp Ht Hm He. eexists. split.
  - unfold cell2.
    etrans; [apply bind_run; by apply (read_csv_run _ _ text) | cbv beta].
    repeat step. run_one.
  - repeat split; try ns_lookup; done.
Qed.

(** The third cell binds the preprocessed arrays. *)
Lemma cell3_run st time mag merr t0 err :
  globals st !! "time" = Some (VArr time) →
  globals st !! "mag" = Some (VArr mag) →
  globals st !! "merr" = Some (VArr merr) →
  np.item0 time = inr t0 → flux_err (flux_rel mag) merr = inr err →
  ∃ st3,
    cell3 st = (inr (), st3) ∧
    globals st3 !! "t_ref" = Some (VNum (t_ref time t0)) ∧
    globals st3 !! "t_norm" = Some (VArr (t_norm time t0)) ∧
    globals st3 !! "flux_rel" = Some (VArr (flux_rel mag)) ∧
    globals st3 !! "flux_err" = Some (VArr err) ∧
    globals st3 !! "time" = Some (VArr time) ∧
    files st3 = files st ∧ calls st3 = calls st.
Proof.
  intros Ht Hm He H0 Herr. eexists. split.
  - unfold cell3. repeat step. run_one.
  - repeat split; try ns_lookup; done.
Qed.

(** The model block registers the variables of [transit_model]. *)
Lemma build_model_run st ref t err flux :
  globals st !! "t_ref" = Some (VNum ref) →
  globals st !! "t_norm" = Some (VArr t) →
  globals st !! "flux_err" = Some (VArr err) →
  globals st !! "flux_rel" = Some (VArr flux) →
  ∃ st',
    build_model st = (inr (transit_model ref t err flux), st') ∧
    globals st' !! "model" = Some (VModel (transit_model ref t err flux)) ∧
    globals st' !! "time" = globals st !! "time" ∧
    files st' = files st ∧ calls st' = calls st.
Proof.
  intros Href Ht Herr Hflux. eexists. split.
  - unfold build_model. repeat step. run_one.
  - repeat split; try ns_lookup; try done.
    repeat first [ rewrite lookup_set_ne by done | rewrite lookup_log ]. done.
Qed.

Lemma pm_sample_run st m draws tune ta tr :
  sample L m draws tune ta = inr tr →
  pm_sample L m draws tune ta st
  = (inr tr, log_call (call_sample m draws tune ta) st).
Proof. intros Hs. unfold pm_sample. step. by apply lift_run. Qed.

Lemma model_block_run st ref t err flux tr :
  globals st !! "t_ref" = Some (VNum ref) →
  globals st !! "t_norm" = Some (VArr t) →
  globals st !! "flux_err" = Some (VArr err) →
  globals st !! "flux_rel" = Some (VArr flux) →
  sample L (transit_model ref t err flux) 2000 1000 0.9 = inr tr →
  ∃ st',
    model_block L st = (inr (), st') ∧
    globals st' !! "trace" = Some (VTrace tr) ∧
    files st' = files st ∧
    calls st'
    = calls st ++ [call_sample (transit_model ref t err flux) 2000 1000 0.9].
Proof.
  intros Href Ht Herr Hflux Hs.
  destruct (build_model_run st ref t err flux Href Ht Herr Hflux)
    as (st1 & Hb & _ & _ & Hf1 & Hc1).
  eexists. split.
  - unfold model_block.
    etrans; [apply bind_run; exact Hb | cbv beta].
    etrans; [apply bind_run; by apply pm_sample_run | cbv beta].
    run_one.
  - split; [ns_lookup |]. split; [done |]. simpl. by rewrite Hc1.
Qed.

End cells.

(** ** What the blocks keep *)
Section blocks_keep.
Context (L : Libraries).

Ltac unfold_blocks :=
  unfold run_all, later_stages, cell1, cell2, cell3, cell4, model_block,
    build_model, predictive_block, summary_block, plot_block, register,
    pm_sample,
    pm_sample_posterior_predictive, plt_call, read_csv, import.

(** No statement after the second cell binds [df], [time], [mag] or
    [merr]. *)
Lemma later_stages_keep_global (x : string) :
  x ∈ ["df"; "time"; "mag"; "merr"] → keeps (same_global x) (later_stages L).
Proof.
  intros Hx. repeat (apply elem_of_cons in Hx as [-> | Hx]);
    [.. | by apply elem_of_nil in Hx]; unfold_blocks; keeps_tac.
Qed.

(** No statement of the notebook writes a file. *)
Lemma run_all_keeps_files : keeps same_files (run_all L).
Proof. unfold_blocks. keeps_tac. Qed.

(** Nothing after the sampling rebinds [trace], and calls are only added. *)
Lemma after_sampling_keeps_trace :
  keeps (same_global "trace") (predictive_block L;; plot_block L).
Proof. unfold_blocks. keeps_tac. Qed.

Lemma after_sampling_more_calls :
  keeps more_calls (predictive_block L;; plot_block L).
Proof. unfold_blocks. keeps_tac. Qed.

End blocks_keep.

Section frame_claims.
Context (L : Libraries).

(** C6. The parsed observations are not modified after they are read:
    whatever the later stages (preprocessing, model fitting, summary and
    plots) do from any state, and whether they return or raise, the names
    [time], [mag] and [merr] (and the frame [df]) are bound afterwards to the
    values they were bound to before. *)
Theorem observations_immutable (st : state) :
  globals (later_stages L st).2 !! "time" = globals st !! "time" ∧
  globals (later_stages L st).2 !! "mag" = globals st !! "mag" ∧
  globals (later_stages L st).2 !! "merr" = globals st !! "merr" ∧
  globals (later_stages L st).2 !! "df" = globals st !! "df".
Proof.
  repeat split; apply (later_stages_keep_global L); set_solver.
Qed.

(** C2 (as the code behaves). Running the notebook leaves the files as they
    were: it creates neither [data/lc_synth.csv] nor
    [data/uncertainties.csv]. *)
Theorem notebook_writes_no_file (st : state) :
  files (run_all L st).2 = files st.
Proof. apply (run_all_keeps_files L). Qed.

End frame_claims.

(** ** The summary of the posterior predictive samples *)
Section summary.
Context (L : Libraries).
Local Open Scope R_scope.

Lemma median01_lookup (a : np.Array3) (j : nat) :
  (j < np.last_axis a)%nat →
  np.median01 a !! j = Some (np.median (np.column a j)).
Proof.
  intros Hj. unfold np.median01.
  by rewrite list_lookup_fmap, lookup_seq_lt.
Qed.

Lemma percentile01_lookup (a : np.Array3) (q j : nat) :
  (j < np.last_axis a)%nat →
  np.percentile01 a q !! j = Some (np.percentile (np.column a j) q).
Proof.
  intros Hj. unfold np.percentile01.
  by rewrite list_lookup_fmap, lookup_seq_lt.
Qed.

Lemma column_nonempty (a : np.Array3) (j : nat) :
  concat (np.items a) ≠ [] → np.column a j ≠ [].
Proof. unfold np.column. by destruct (concat (np.items a)). Qed.

(** The summary of one array of samples: at each time point the median lies
    between the 16th and the 84th percentile. *)
Lemma summary_ordered (a : np.Array3) (j : nat) :
  (j < np.last_axis a)%nat → concat (np.items a) ≠ [] →
  ∃ lo med hi,
    np.percentile01 a 16 !! j = Some (Some lo) ∧
    np.median01 a !! j = Some (Some med) ∧
    np.percentile01 a 84 !! j = Some (Some hi) ∧
    lo <= med <= hi.
Proof.
  intros Hj Ha.
  destruct (median_between_percentiles (np.column a j))
    as (lo & med & hi & Hlo & Hmed & Hhi & Hord);
    [by apply column_nonempty |].
  exists lo, med, hi.
  rewrite !percentile01_lookup, median01_lookup by done.
  by rewrite Hlo, Hmed, Hhi.
Qed.

Lemma get_model_inv (x : string) (st st' : state) (m : pm.Model) :
  get_model x st = (inr m, st') →
  st' = st ∧ globals st !! x = Some (VModel m).
Proof.
  unfold get_model, lookup_name, mbind, nb_bind, mret, nb_ret, lift.
  destruct (globals st !! x) as [[] |]; intros H; by simplify_eq/=.
Qed.

Lemma get_trace_inv (x : string) (st st' : state) (tr : pm.Trace) :
  get_trace x st = (inr tr, st') →
  st' = st ∧ globals st !! x = Some (VTrace tr).
Proof.
  unfold get_trace, lookup_name, mbind, nb_bind, mret, nb_ret, lift.
  destruct (globals st !! x) as [[] |]; intros H; by simplify_eq/=.
Qed.

Lemma percentile01_defined (a : np.Array3) (q : nat) :
  concat (np.items a) ≠ [] → (q ≤ 100)%nat →
  Forall (is_Some ∘ (λ o : option R, o)) (np.percentile01 a q).
Proof.
  intros Ha Hq. unfold np.percentile01. apply Forall_fmap, Forall_forall.
  intros j _. simpl.
  destruct (percentile_mono (np.column a j) q q) as (v & _ & Hv & _);
    [by apply column_nonempty | done | done |].
  by exists v.
Qed.

(** With at least one sample the percentile call returns, one number for
    each time point; without a sample it raises. *)
Lemma percentile_axes01_run (a : np.Array3) (q : nat) :
  concat (np.items a) ≠ [] → (q ≤ 100)%nat →
  ∃ v, np.percentile_axes01 a q = inr v ∧ np.percentile01 a q = Some <$> v.
Proof.
  intros Ha Hq. unfold np.percentile_axes01. rewrite decide_False by done.
  destruct (mapM (λ o : option R, o) (np.percentile01 a q)) as [v |] eqn:Hv.
  - exists v. split; [done |]. symmetry.
    by apply (mapM_fmap_Some_inv _ Some _ _ Hv).
  - assert (is_Some (mapM (λ o : option R, o) (np.percentile01 a q)))
      as [v Hv'];
      [| congruence].
    by apply mapM_is_Some, percentile01_defined.
Qed.

Lemma percentile_axes01_raise (a : np.Array3) (q : nat) :
  concat (np.items a) = [] → np.percentile_axes01 a q = inl IndexError.
Proof. intros Ha. unfold np.percentile_axes01. by rewrite decide_True. Qed.

Lemma getitem_group_run (ds : gmap string np.Array3) (name : string)
    (a : np.Array3) :
  ds !! name = Some a → getitem_group ds name = inr a.
Proof. intros Ha. unfold getitem_group. by rewrite Ha. Qed.

(** The summary, run forward on the samples bound to [ppc]. *)
Lemma summary_block_run (st : state) (ppc : gmap string np.Array3)
    (a : np.Array3) (lo hi : list R) :
  globals st !! "ppc" = Some (VInferenceData ppc) →
  ppc !! "raw_lc" = Some a →
  np.percentile_axes01 a 16 = inr lo → np.percentile_axes01 a 84 = inr hi →
  ∃ st',
    summary_block st = (inr (), st') ∧
    globals st' !! "lc_samps" = Some (VArr3 a) ∧
    globals st' !! "lc_median" = Some (VNanArr (np.median01 a)) ∧
    globals st' !! "lc_lo" = Some (VArr lo) ∧
    globals st' !! "lc_hi" = Some (VArr hi) ∧
    (∀ x, x ∉ ["lc_samps"; "lc_median"; "lc_lo"; "lc_hi"] →
          globals st' !! x = globals st !! x) ∧
    files st' = files st ∧ calls st' = calls st.
Proof.
  intros Hppc Ha Hlo Hhi. eexists. split.
  - unfold summary_block. step.
    etrans; [apply bind_run, lift_run; by apply getitem_group_run |].
    cbv beta. repeat step. run_one.
  - repeat split; try ns_lookup; try done.
    intros x Hx. rewrite !lookup_set_ne; [done | set_solver ..].
Qed.



(** ** Exchangeable samples *)

Lemma column_perm (a a' : np.Array3) (j : nat) :
  concat (np.items a) ≡ₚ concat (np.items a') →
  np.column a j ≡ₚ np.column a' j.
Proof. intros Hp. unfold np.column. by apply fmap_Permutation. Qed.

Lemma median_of_perm (a b : list R) : a ≡ₚ b → np.median a = np.median b.
Proof. intros Hp. unfold np.median. by rewrite (sort_of_perm a b Hp). Qed.

Lemma percentile_of_perm (a b : list R) (q : nat) :
  a ≡ₚ b → np.percentile a q = np.percentile b q.
Proof. intros Hp. unfold np.percentile. by rewrite (sort_of_perm a b Hp). Qed.

(** C7. The samples are exchangeable: two arrays of samples with the same
    time axis whose samples, over all chains and draws, are a rearrangement
    of each other (chains permuted, draws permuted, or both) have the same
    median and the same 16th and 84th percentiles at every time point. *)
Theorem summary_permutation_invariant (a a' : np.Array3) :
  np.last_axis a = np.last_axis a' →
  concat (np.items a) ≡ₚ concat (np.items a') →
  np.median01 a = np.median01 a' ∧
  np.percentile01 a 16 = np.percentile01 a' 16 ∧
  np.percentile01 a 84 = np.percentile01 a' 84.
Proof.
  intros Hn Hp. unfold np.median01, np.percentile01. rewrite Hn.
  repeat split; apply list_fmap_ext; intros _ j _.
  - apply median_of_perm. by apply column_perm.
  - apply percentile_of_perm. by apply column_perm.
  - apply percentile_of_perm. by apply column_perm.
Qed.

End summary.

(** ** Exceptions *)
Section exceptions.
Context (L : Libraries).
Implicit Types st : state.

Lemma read_csv_raise st path e :
  (read_csv L path st).1 = inl e →
  read_csv L path st = (inl e, log_call (call_read_csv path) st).
Proof.
  unfold read_csv, read_file, record, lift, mbind, nb_bind. simpl.
  destruct (files st !! path) as [text |]; simpl.
  - destruct (parse_csv L text); simpl; intros H; by simplify_eq.
  - intros H. by simplify_eq.
Qed.

Lemma pm_sample_raise st m draws tune ta e :
  sample L m draws tune ta = inl e →
  pm_sample L m draws tune ta st
  = (inl e, log_call (call_sample m draws tune ta) st).
Proof.
  intros Hs. unfold pm_sample. etrans; [apply bind_run, record_run |].
  by apply lift_raise.
Qed.

Lemma pm_sample_posterior_predictive_raise st m tr names seed e :
  sample_posterior_predictive L m tr names seed = inl e →
  pm_sample_posterior_predictive L m tr names seed st
  = (inl e, log_call (call_sample_posterior_predictive m tr names seed) st).
Proof.
  intros Hs. unfold pm_sample_posterior_predictive.
  etrans; [apply bind_run, record_run |]. by apply lift_raise.
Qed.

(** The notebook after its first cells have returned. *)
Lemma run_all_after_cell1 st st1 :
  cell1 st = (inr (), st1) →
  run_all L st = (cell2 L;; later_stages L) st1.
Proof. intros H1. unfold run_all. by rewrite (bind_run _ _ _ _ _ H1). Qed.

Lemma run_all_after_cell3 st st3 :
  (cell1;; cell2 L;; cell3) st = (inr (), st3) →
  run_all L st = cell4 L st3.
Proof.
  intros H. apply bind_inv in H as ([] & s1 & H1 & H).
  apply bind_inv in H as ([] & s2 & H2 & H3).
  unfold run_all, later_stages.
  rewrite (bind_run _ _ _ _ _ H1), (bind_run _ _ _ _ _ H2).
  by rewrite (bind_run _ _ _ _ _ H3).
Qed.

Lemma run_all_after_model_block st st4 :
  (cell1;; cell2 L;; cell3;; model_block L) st = (inr (), st4) →
  run_all L st = (predictive_block L;; plot_block L) st4.
Proof.
  intros H. apply bind_inv in H as ([] & s1 & H1 & H).
  apply bind_inv in H as ([] & s2 & H2 & H).
  apply bind_inv in H as ([] & s3 & H3 & H4).
  unfold run_all, later_stages, cell4.
  rewrite (bind_run _ _ _ _ _ H1), (bind_run _ _ _ _ _ H2).
  by rewrite (bind_run _ _ _ _ _ H3), (bind_run _ _ _ _ _ H4).
Qed.

(** C8. No stage catches, translates or retries: when [pd.read_csv], the
    sampler or the posterior predictive sampler raises [e], the run of the
    notebook raises that same [e], and the state it stops in is the state at
    the call with that one call logged; an exception of the plots ends the
    run in the same way. *)
Theorem library_exceptions_propagate (st : state) (e : exn) :
  (∀ st1,
     cell1 st = (inr (), st1) →
     (read_csv L "data/lc_obs.csv" st1).1 = inl e →
     run_all L st = (inl e, log_call (call_read_csv "data/lc_obs.csv") st1)) ∧
  (∀ st3 m st4,
     (cell1;; cell2 L;; cell3) st = (inr (), st3) →
     build_model st3 = (inr m, st4) →
     sample L m 2000 1000 0.9 = inl e →
     run_all L st = (inl e, log_call (call_sample m 2000 1000 0.9) st4)) ∧
  (∀ st4 m tr,
     (cell1;; cell2 L;; cell3;; model_block L) st = (inr (), st4) →
     globals st4 !! "model" = Some (VModel m) →
     globals st4 !! "trace" = Some (VTrace tr) →
     sample_posterior_predictive L m tr ["raw_lc"] 42 = inl e →
     run_all L st
     = (inl e,
        log_call (call_sample_posterior_predictive m tr ["raw_lc"] 42) st4)) ∧
  (∀ st5 st6,
     (cell1;; cell2 L;; cell3;; model_block L;; predictive_block L) st
     = (inr (), st5) →
     plot_block L st5 = (inl e, st6) →
     run_all L st = (inl e, st6)).
Proof.
  split; [| split; [| split]].
  - intros st1 H1 Hr. rewrite (run_all_after_cell1 st st1 H1).
    apply bind_raise. unfold cell2. apply bind_raise.
    by apply read_csv_raise.
  - intros st3 m st4 H3 Hb Hs. rewrite (run_all_after_cell3 st st3 H3).
    unfold cell4. apply bind_raise. unfold model_block.
    rewrite (bind_run _ _ _ _ _ Hb). apply bind_raise.
    by apply pm_sample_raise.
  - intros st4 m tr H4 Hm Ht Hs.
    rewrite (run_all_after_model_block st st4 H4).
    apply bind_raise. unfold predictive_block.
    rewrite (bind_run _ _ _ _ _ (get_model_run _ _ _ Hm)).
    rewrite (bind_run _ _ _ _ _ (get_trace_run _ _ _ Ht)).
    apply bind_raise. by apply pm_sample_posterior_predictive_raise.
  - intros st5 st6 H5 Hp.
    apply bind_inv in H5 as ([] & s1 & H1 & H5).
    apply bind_inv in H5 as ([] & s2 & H2 & H5).
    apply bind_inv in H5 as ([] & s3 & H3 & H5).
    apply bind_inv in H5 as ([] & s4 & H4 & H5).
    unfold run_all, later_stages, cell4.
    rewrite (bind_run _ _ _ _ _ H1), (bind_run _ _ _ _ _ H2).
    rewrite (bind_run _ _ _ _ _ H3), (bind_run _ _ _ _ _ H4).
    by rewrite (bind_run _ _ _ _ _ H5).
Qed.

End exceptions.

(** ** The model fitter *)
Section model_fitter.
Context (L : Libraries).
Local Open Scope R_scope.

Lemma unobserved_names_transit_model ref t err flux :
  pm.unobserved_names (transit_model ref t err flux)
  = ["logP"; "period"; "phase"; "tm"; "r"; "b"; "log_rho_star"; "rho_star";
     "log_rstar"; "r_star"; "u"; "mean"].
Proof. reflexivity. Qed.

(** A table with at least one row, whose columns have one length, has a
    model. *)
Lemma fitted_model_defined (time mag merr : list R) :
  time ≠ [] → mag ≠ [] → length mag = length merr →
  ∃ m, fitted_model time mag merr = inr m.
Proof.
  intros Ht Hm Hlen. destruct time as [| t0 rest]; [done |].
  unfold fitted_model. simpl np.item0.
  rewrite flux_err_same_length by (by rewrite flux_rel_length).
  by eexists.
Qed.

(** C1. The model fitter reads [data/lc_obs.csv], takes its columns HJD,
    MAG and MERR, and samples the transit model built from them; when the
    parser and the sampler return, the notebook ends with [trace] bound to
    the sampler's result, the file was read and the sampler called once, in
    this order, and every draw of that posterior sample set holds the
    period ([period]), the transit time ([tm]), the radius ratio ([r]) and
    the impact parameter ([b]). *)
Theorem model_fitter_posterior (st : state) (text : string)
    (df : pd.DataFrame) (time mag merr : list R) (m : pm.Model)
    (tr : pm.Trace) :
  files st !! "data/lc_obs.csv" = Some text →
  parse_csv L text = inr df →
  df !! "HJD" = Some time → df !! "MAG" = Some mag → df !! "MERR" = Some merr →
  fitted_model time mag merr = inr m →
  sample L m 2000 1000 0.9 = inr tr →
  pm.samples_model m tr →
  globals (run_all L st).2 !! "trace" = Some (VTrace tr) ∧
  (∃ rest,
     calls (run_all L st).2
     = calls st
       ++ [call_read_csv "data/lc_obs.csv"; call_sample m 2000 1000 0.9]
       ++ rest) ∧
  ∀ chain pt, chain ∈ tr → pt ∈ chain →
    is_Some (pt !! "period") ∧ is_Some (pt !! "tm") ∧
    is_Some (pt !! "r") ∧ is_Some (pt !! "b").
Proof.
  intros Hf Hp Ht Hm He Hmodel Hs Hc.
  unfold fitted_model in Hmodel.
  destruct (np.item0 time) as [? | t0] eqn:H0; [done |].
  destruct (flux_err (flux_rel mag) merr) as [? | err] eqn:Herr; [done |].
  injection Hmodel as <-.
  destruct (cell1_run st) as (st1 & H1 & Hf1 & Hc1).
  rewrite <- Hf1 in Hf.
  destruct (cell2_run L st1 text df time mag merr Hf Hp Ht Hm He)
    as (st2 & H2 & Gt & Gm & Ge & Hf2 & Hc2).
  destruct (cell3_run st2 time mag merr t0 err Gt Gm Ge H0 Herr)
    as (st3 & H3 & Gref & Gnorm & Gflux & Gerr & _ & Hf3 & Hc3).
  destruct (model_block_run L st3 _ _ _ _ tr Gref Gnorm Gerr Gflux Hs)
    as (st4 & H4 & Gtr & Hf4 & Hc4).
  assert (run_all L st = (predictive_block L;; plot_block L) st4) as ->.
  { unfold run_all, later_stages, cell4.
    rewrite (bind_run _ _ _ _ _ H1), (bind_run _ _ _ _ _ H2).
    by rewrite (bind_run _ _ _ _ _ H3), (bind_run _ _ _ _ _ H4). }
  split; [| split].
  - rewrite <- Gtr. apply (after_sampling_keeps_trace L).
  - destruct (after_sampling_more_calls L st4) as [rest Hrest].
    exists rest. rewrite Hrest, Hc4, Hc3, Hc2, Hc1.
    by rewrite <- !app_assoc.
  - intros chain pt Hchain Hpt.
    repeat split; apply (Hc chain pt); try done;
      rewrite unobserved_names_transit_model; set_solver.
Qed.

End model_fitter.

(** * A run on a small table *)
Section example_run.
Local Open Scope R_scope.

(** A table of three observations, a posterior of one chain with one draw
    and predictive samples of two chains. *)
Definition example_frame : pd.DataFrame :=
  <["HJD" := [1; 2; 4]]> (<["MAG" := [12; 13; 11]]>
    (<["MERR" := [0.01; 0.02; 0]]> ∅)).

Definition example_point : pm.Point :=
  list_to_map
    [("logP", [1.167]); ("period", [3.213]); ("phase", [0.1]); ("tm", [0.3]);
     ("r", [0.1]); ("b", [0.5]); ("log_rho_star", [0.3]); ("rho_star", [1.4]);
     ("log_rstar", [-0.4]); ("r_star", [0.7]); ("u", [0.3; 0.2]);
     ("mean", [0])].

Definition example_trace : pm.Trace := [[example_point]].

Definition example_samples : np.Array3 :=
  np.MkArray3 3 [[[1; 5; 2]; [3; 1; 2]]; [[2; 3; 2]]].

Definition example_libraries : Libraries :=
  MkLibraries
    (λ _, inr example_frame)
    (λ _ _ _ _, inr example_trace)
    (λ _ _ _ _, inr (<["raw_lc" := example_samples]> ∅))
    (λ _, inr ()).

(** The same libraries with a parser that raises. *)
Definition failing_parser : Libraries :=
  MkLibraries
    (λ _, inl (LibraryError "pandas" "ParserError"))
    (sample example_libraries)
    (sample_posterior_predictive example_libraries)
    (draw example_libraries).

(** The text of a CSV file, from its lines. *)
Definition csv (lines : list string) : string :=
  String.concat (String (Ascii.ascii_of_nat 10) EmptyString) lines.

(** A fresh kernel beside an observations file. *)
Definition kernel_beside (text : string) : state :=
  MkState ∅ (<["data/lc_obs.csv" := text]> ∅) [].

Definition example_csv : string :=
  csv ["HJD,MAG,MERR"; "1.0,12.0,0.01"; "2.0,13.0,0.02"; "4.0,11.0,0.0"].

Definition example_state : state := kernel_beside example_csv.

End example_run.

Section witnesses.
Local Open Scope R_scope.

Lemma example_trace_samples_model (m : pm.Model) :
  pm.unobserved_names m
  = ["logP"; "period"; "phase"; "tm"; "r"; "b"; "log_rho_star"; "rho_star";
     "log_rstar"; "r_star"; "u"; "mean"] →
  pm.samples_model m example_trace.
Proof.
  intros Hm chain pt name Hchain Hpt Hname. rewrite Hm in Hname.
  unfold example_trace in Hchain.
  apply list_elem_of_singleton in Hchain as ->.
  apply list_elem_of_singleton in Hpt as ->.
  unfold example_point.
  repeat (apply elem_of_cons in Hname as [-> | Hname]; [by eexists |]).
  by apply elem_of_nil in Hname.
Qed.

Lemma example_fitted_model :
  fitted_model [1; 2; 4] [12; 13; 11] [0.01; 0.02; 0]
  = inr (transit_model (t_ref [1; 2; 4] 1) (t_norm [1; 2; 4] 1)
           (zip_with Rmult
              (np.scale (0.4 * np.log 10)
                 (np.add_scalar (flux_rel [12; 13; 11]) 1))
              [0.01; 0.02; 0])
           (flux_rel [12; 13; 11])).
Proof.
  unfold fitted_model. simpl np.item0.
  rewrite flux_err_same_length by (by rewrite flux_rel_length).
  reflexivity.
Qed.

Lemma model_fitter_posterior_witness :
  ∃ m,
    fitted_model [1; 2; 4] [12; 13; 11] [0.01; 0.02; 0] = inr m ∧
    sample example_libraries m 2000 1000 0.9 = inr example_trace ∧
    globals (run_all example_libraries example_state).2 !! "trace"
    = Some (VTrace example_trace) ∧
    (∃ rest,
       calls (run_all example_libraries example_state).2
       = calls example_state
         ++ [call_read_csv "data/lc_obs.csv"; call_sample m 2000 1000 0.9]
         ++ rest) ∧
    ∀ chain pt, chain ∈ example_trace → pt ∈ chain →
      is_Some (pt !! "period") ∧ is_Some (pt !! "tm") ∧
      is_Some (pt !! "r") ∧ is_Some (pt !! "b").
Proof.
  eexists. split; [exact example_fitted_model |]. split; [reflexivity |].
  apply (model_fitter_posterior example_libraries example_state
           example_csv example_frame [1; 2; 4] [12; 13; 11]
           [0.01; 0.02; 0]).
  - reflexivity.
  - reflexivity.
  - reflexivity.
  - reflexivity.
  - reflexivity.
  - exact example_fitted_model.
  - reflexivity.
  - apply example_trace_samples_model, unobserved_names_transit_model.
Defined.

(** A state in which the posterior predictive samples have been drawn. *)
Definition example_summary_state : state :=
  MkState (<["ppc" := VInferenceData (<["raw_lc" := example_samples]> ∅)]> ∅)
    ∅ [].


(** Posterior predictive samples of no chain, for three time points. *)
Definition no_samples : np.Array3 := np.MkArray3 3 [].

Definition example_unsampled_state : state :=
  MkState (<["ppc" := VInferenceData (<["raw_lc" := no_samples]> ∅)]> ∅) ∅ [].


(** The samples of [example_samples] with the chains and the draws of the
    first chain in the other order. *)
Definition example_samples_permuted : np.Array3 :=
  np.MkArray3 3 [[[2; 3; 2]]; [[3; 1; 2]; [1; 5; 2]]].

Lemma example_samples_rearranged :
  concat (np.items example_samples)
  ≡ₚ concat (np.items example_samples_permuted).
Proof.
  simpl. etrans; [apply Permutation_swap |].
  etrans; [apply perm_skip, Permutation_swap |]. apply Permutation_swap.
Qed.

Lemma summary_permutation_invariant_witness :
  np.last_axis example_samples = np.last_axis example_samples_permuted ∧
  concat (np.items example_samples)
  ≡ₚ concat (np.items example_samples_permuted) ∧
  np.median01 example_samples = np.median01 example_samples_permuted ∧
  np.percentile01 example_samples 16
  = np.percentile01 example_samples_permuted 16 ∧
  np.percentile01 example_samples 84
  = np.percentile01 example_samples_permuted 84.
Proof.
  split; [reflexivity |]. split; [exact example_samples_rearranged |].
  apply (summary_permutation_invariant example_samples
           example_samples_permuted);
    [reflexivity | exact example_samples_rearranged].
Defined.

Lemma read_csv_fails (L : Libraries) (st : state) path text e :
  files st !! path = Some text → parse_csv L text = inl e →
  (read_csv L path st).1 = inl e.
Proof.
  intros Hf Hp. unfold read_csv, read_file, record, lift, mbind, nb_bind.
  simpl. by rewrite Hf, Hp.
Qed.

Lemma library_exceptions_propagate_witness :
  (run_all failing_parser example_state).1
  = inl (LibraryError "pandas" "ParserError") ∧
  calls (run_all failing_parser example_state).2
  = [call_read_csv "data/lc_obs.csv"].
Proof.
  destruct (cell1_run example_state) as (st1 & H1 & Hf & Hc).
  rewrite (proj1 (library_exceptions_propagate failing_parser example_state
                    (LibraryError "pandas" "ParserError")) st1 H1).
  - split; [reflexivity |]. simpl. by rewrite Hc.
  - apply (read_csv_fails _ _ _ example_csv); [by rewrite Hf | done].
Defined.

End witnesses.

Section example_files.

(** On the small table the run ends with neither output file of the
    documented workflow on disk. *)
Lemma example_run_writes_nothing :
  files (run_all example_libraries example_state).2 !! "data/lc_synth.csv"
  = None ∧
  files (run_all example_libraries example_state).2
    !! "data/uncertainties.csv" = None.
Proof.
  rewrite (run_all_keeps_files example_libraries example_state).
  by split.
Qed.

End example_files.

(** * Further properties of the preprocessing *)
Section preprocessing_more.
Local Open Scope R_scope.

Lemma flux_rel_length_any (mag : list R) : length (flux_rel mag) = length mag.
Proof.
  destruct mag as [| m mag]; [done |]. by apply flux_rel_length.
Qed.

Lemma mul_length (a b err : list R) :
  length a = length b → np.mul a b = inr err → length err = length b.
Proof.
  intros Hlen. unfold np.mul. rewrite decide_True by done.
  intros [= <-]. rewrite length_zip_with. lia.
Qed.

(** The arrays handed to the model have one entry per observation, and the
    relative time starts at zero. *)
Theorem preprocessing_keeps_shape (time mag merr err : list R) (t0 : R) :
  np.item0 time = inr t0 →
  length mag = length merr →
  flux_err (flux_rel mag) merr = inr err →
  t_rel time t0 !! 0%nat = Some 0 ∧
  length (t_rel time t0) = length time ∧
  length (t_norm time t0) = length time ∧
  length (flux_rel mag) = length mag ∧
  length err = length merr.
Proof.
  intros H0 Hlen Herr. split; [| split; [| split; [| split]]].
  - destruct time as [| t rest]; [done |]. simpl in H0.
    injection H0 as ->. unfold t_rel, np.sub_scalar. simpl. f_equal. lra.
  - apply sub_scalar_length.
  - apply t_norm_length.
  - apply flux_rel_length_any.
  - unfold flux_err in Herr. eapply mul_length; [| exact Herr].
    unfold np.scale, np.add_scalar.
    by rewrite !length_fmap, flux_rel_length_any.
Qed.

Lemma preprocessing_keeps_shape_witness :
  t_rel [1; 2; 4] 1 !! 0%nat = Some 0 ∧
  length (t_rel [1; 2; 4] 1) = length [1; 2; 4] ∧
  length (t_norm [1; 2; 4] 1) = length [1; 2; 4] ∧
  length (flux_rel [12; 13; 11]) = length [12; 13; 11] ∧
  length (zip_with Rmult
            (np.scale (0.4 * np.log 10)
               (np.add_scalar (flux_rel [12; 13; 11]) 1))
            [0.01; 0.02; 0])
  = length [0.01; 0.02; 0].
Proof.
  apply (preprocessing_keeps_shape [1; 2; 4] [12; 13; 11] [0.01; 0.02; 0]).
  - reflexivity.
  - reflexivity.
  - apply flux_err_same_length. by rewrite flux_rel_length_any.
Defined.



End preprocessing_more.

(** * Further properties of the summary *)
Section summary_more.
Local Open Scope R_scope.

(** A percentile of a non-empty array lies between two of its elements: the
    band [lc_lo .. lc_hi] and the median never leave the range of the
    samples they summarize. *)
Theorem percentile_within_samples (a : list R) (q : nat) :
  a ≠ [] → (q ≤ 100)%nat →
  ∃ v x y,
    np.percentile a q = Some v ∧ x ∈ a ∧ y ∈ a ∧ x <= v <= y.
Proof.
  intros Ha Hq. unfold np.percentile.
  rewrite percentile_sorted_interpolate.
  assert (np.sort a ≠ []) as Hs.
  { intros Hs. apply (f_equal length) in Hs. rewrite sort_length in Hs.
    by destruct a. }
  destruct (interpolate_between (np.sort a) (q * (length (np.sort a) - 1)))
    as (x & y & v & Hx & Hy & Hv & Hb);
    [apply sort_sorted | by apply Nat.mul_le_mono_r | done |].
  exists v, x, y. split; [done |].
  split; [| split; [| done]].
  - rewrite <- (sort_perm a). by eapply list_elem_of_lookup_2.
  - rewrite <- (sort_perm a). by eapply list_elem_of_lookup_2.
Qed.

Lemma percentile_within_samples_witness :
  ∃ v x y,
    np.percentile [3; 1; 2] 84 = Some v ∧
    x ∈ [3; 1; 2] ∧ y ∈ [3; 1; 2] ∧ x <= v <= y.
Proof. apply (percentile_within_samples [3; 1; 2] 84); [done | lia]. Defined.

(** The three summaries have one entry per time point. *)
Lemma summary_lengths (a : np.Array3) :
  length (np.median01 a) = np.last_axis a ∧
  length (np.percentile01 a 16) = np.last_axis a ∧
  length (np.percentile01 a 84) = np.last_axis a.
Proof.
  unfold np.median01, np.percentile01.
  by rewrite !length_fmap, !length_seq.
Qed.

End summary_more.

(** * Runs that stop early *)
Section early_stops.
Context (L : Libraries).
Implicit Types st : state.

Lemma lookup_name_unbound x st :
  globals st !! x = None → lookup_name x st = (inl (NameError x), st).
Proof. intros Hx. unfold lookup_name. by rewrite Hx. Qed.

Lemma get_arr_unbound x st :
  globals st !! x = None → get_arr x st = (inl (NameError x), st).
Proof.
  intros Hx. unfold get_arr. apply bind_raise. by apply lookup_name_unbound.
Qed.

Lemma get_num_unbound x st :
  globals st !! x = None → get_num x st = (inl (NameError x), st).
Proof.
  intros Hx. unfold get_num. apply bind_raise. by apply lookup_name_unbound.
Qed.

Lemma getitem_missing (df : pd.DataFrame) (c : string) :
  df !! c = None → pd.getitem df c = inl (KeyError c).
Proof. intros Hc. unfold pd.getitem. by rewrite Hc. Qed.

Lemma read_csv_missing st path :
  files st !! path = None →
  read_csv L path st
  = (inl (FileNotFoundError path), log_call (call_read_csv path) st).
Proof.
  intros Hf. unfold read_csv. step. apply bind_raise.
  unfold read_file. simpl. by rewrite Hf.
Qed.

(** Without the observations file the run stops at [pd.read_csv] with
    [FileNotFoundError]: the imports are done, the one call is logged, and
    nothing of the table is bound. *)
Theorem missing_file_raises (st : state) :
  files st !! "data/lc_obs.csv" = None →
  ∃ st1,
    cell1 st = (inr (), st1) ∧
    run_all L st
    = (inl (FileNotFoundError "data/lc_obs.csv"),
       log_call (call_read_csv "data/lc_obs.csv") st1) ∧
    calls st1 = calls st.
Proof.
  intros Hf. destruct (cell1_run st) as (st1 & H1 & Hf1 & Hc1).
  exists st1. split; [done |]. split; [| done].
  unfold run_all. rewrite (bind_run _ _ _ _ _ H1).
  apply bind_raise. unfold cell2. apply bind_raise.
  apply read_csv_missing. by rewrite Hf1.
Qed.

(** A table without one of the three columns: the run stops with a
    [KeyError] that names the first column that is missing, after the one
    call of [pd.read_csv]. *)
Theorem missing_column_raises (st : state) (text : string)
    (df : pd.DataFrame) (pre post : list string) (c : string) :
  files st !! "data/lc_obs.csv" = Some text →
  parse_csv L text = inr df →
  ["HJD"; "MAG"; "MERR"] = pre ++ c :: post →
  (∀ c', c' ∈ pre → is_Some (df !! c')) →
  df !! c = None →
  ∃ st',
    run_all L st = (inl (KeyError c), st') ∧
    calls st' = calls st ++ [call_read_csv "data/lc_obs.csv"].
Proof.
  intros Hf Hp Hcols Hpre Hc.
  destruct (cell1_run st) as (st1 & H1 & Hf1 & Hc1).
  rewrite <- Hf1 in Hf.
  pose proof (read_csv_run L st1 _ text df Hf Hp) as Hread.
  unfold run_all. rewrite (bind_run _ _ _ _ _ H1).
  destruct pre as [| c1 [| c2 [| c3 pre]]]; simplify_eq/=.
  - eexists. split.
    + apply bind_raise. unfold cell2.
      rewrite (bind_run _ _ _ _ _ Hread). step.
      apply bind_raise, lift_raise. by apply getitem_missing.
    + simpl. by rewrite Hc1.
  - destruct (Hpre "HJD") as [time Ht]; [set_solver |].
    eexists. split.
    + apply bind_raise. unfold cell2.
      rewrite (bind_run _ _ _ _ _ Hread). repeat step.
      apply bind_raise, lift_raise. by apply getitem_missing.
    + simpl. by rewrite Hc1.
  - destruct (Hpre "HJD") as [time Ht]; [set_solver |].
    destruct (Hpre "MAG") as [mag Hm]; [set_solver |].
    eexists. split.
    + apply bind_raise. unfold cell2.
      rewrite (bind_run _ _ _ _ _ Hread). repeat step.
      apply bind_raise, lift_raise. by apply getitem_missing.
    + simpl. by rewrite Hc1.
  - destruct pre; simplify_eq/=.
Qed.

(** A table with the three columns and no row: the second cell returns and
    the third stops at [time[0]] with [IndexError]; the sampler is never
    called. *)
Theorem empty_table_raises (st : state) (text : string) (df : pd.DataFrame)
    (mag merr : list R) :
  files st !! "data/lc_obs.csv" = Some text →
  parse_csv L text = inr df →
  df !! "HJD" = Some [] → df !! "MAG" = Some mag → df !! "MERR" = Some merr →
  ∃ st',
    run_all L st = (inl IndexError, st') ∧
    calls st' = calls st ++ [call_read_csv "data/lc_obs.csv"] ∧
    globals st' !! "time" = Some (VArr []).
Proof.
  intros Hf Hp Ht Hm He.
  destruct (cell1_run st) as (st1 & H1 & Hf1 & Hc1).
  rewrite <- Hf1 in Hf.
  destruct (cell2_run L st1 text df [] mag merr Hf Hp Ht Hm He)
    as (st2 & H2 & Gt & Gm & Ge & Hf2 & Hc2).
  exists st2. split; [| split; [by rewrite Hc2, Hc1 | done]].
  unfold run_all, later_stages.
  rewrite (bind_run _ _ _ _ _ H1), (bind_run _ _ _ _ _ H2).
  apply bind_raise. unfold cell3.
  rewrite (bind_run _ _ _ _ _ (get_arr_run _ _ _ Gt)).
  by apply bind_raise, lift_raise.
Qed.

Lemma cell1_keeps_global (x : string) :
  x ∉ ["pd"; "np"; "plt"; "pm"; "pt"; "xo"; "Time"] →
  keeps (same_global x) cell1.
Proof.
  intros Hx. unfold cell1, import.
  repeat (apply keeps_bind; [apply _ | | intros ?]);
    apply assign_same_global; set_solver.
Qed.

(** Cells run out of order: the third cell in a kernel without [time] stops
    with [NameError] for [time] and changes nothing; once the imports of the
    first cell are done, the fourth cell in a kernel without the
    preprocessing stops with [NameError] for [t_ref] before any library is
    called. *)
Theorem out_of_order_raises (st st1 : state) :
  (globals st !! "time" = None →
   cell3 st = (inl (NameError "time"), st)) ∧
  (cell1 st = (inr (), st1) → globals st !! "t_ref" = None →
   ∃ st', cell4 L st1 = (inl (NameError "t_ref"), st') ∧
          calls st' = calls st ∧ files st' = files st).
Proof.
  split.
  - intros Ht. unfold cell3. apply bind_raise. by apply get_arr_unbound.
  - intros H1 Ht.
    destruct (cell1_run st) as (st1' & H1' & Hf1 & Hc1).
    assert (st1' = st1) as -> by congruence.
    assert (globals st1 !! "t_ref" = None) as Ht1.
    { assert ("t_ref" ∉ ["pd"; "np"; "plt"; "pm"; "pt"; "xo"; "Time"]) as Hx
        by (apply (bool_decide_unpack _); by vm_compute).
      pose proof (cell1_keeps_global "t_ref" Hx st) as K.
      rewrite H1 in K. unfold same_global in K. simpl in K. congruence. }
    eexists. split.
    + unfold cell4. apply bind_raise. unfold model_block. apply bind_raise.
      unfold build_model. repeat step. apply bind_raise.
      apply get_num_unbound.
      repeat first [ rewrite lookup_set_ne by done | rewrite lookup_log ].
      exact Ht1.
    + done.
Qed.

End early_stops.

(** * The model block, read backwards *)
Section model_block_inversion.
Implicit Types st : state.

Lemma assign_inv x v st (u : ()) st' :
  assign x v st = (inr u, st') → st' = set_global x v st.
Proof. unfold assign. by intros [= _ <-]. Qed.

Lemma get_arr_inv x st st' (a : list R) :
  get_arr x st = (inr a, st') →
  st' = st ∧ globals st !! x = Some (VArr a).
Proof.
  unfold get_arr, lookup_name, mbind, nb_bind, mret, nb_ret, lift.
  destruct (globals st !! x) as [[] |]; intros H; by simplify_eq/=.
Qed.

Lemma get_num_inv x st st' (c : option R) :
  get_num x st = (inr c, st') →
  st' = st ∧ globals st !! x = Some (VNum c).
Proof.
  unfold get_num, lookup_name, mbind, nb_bind, mret, nb_ret, lift.
  destruct (globals st !! x) as [[] |]; intros H; by simplify_eq/=.
Qed.

Lemma register_inv v st e st' :
  register v st = (inr e, st') →
  ∃ m, globals st !! "model" = Some (VModel m) ∧
       e = pm.ERef (pm.rv_name v) ∧
       st' = set_global "model" (VModel (m ++ [v])) st.
Proof.
  unfold register. intros H.
  apply bind_inv in H as (m & s1 & Hm & H).
  apply get_model_inv in Hm as [-> Hm].
  apply bind_inv in H as ([] & s2 & Hs & H).
  apply assign_inv in Hs as ->.
  exists m. split; [done |]. by injection H as <- <-.
Qed.

End model_block_inversion.

(** Reading a hypothesis about a name in a state built by assignments. *)
Ltac ns_normalize H :=
  repeat first
    [ rewrite lookup_set_ne in H by done
    | rewrite lookup_log in H ];
  try (rewrite lookup_set_eq in H; injection H as H).

Ltac inv_assign H :=
  let s := fresh "s" in let Hs := fresh "Hs" in
  apply bind_inv in H as ([] & s & Hs & H);
  apply assign_inv in Hs as ->.

Ltac inv_register H :=
  let e := fresh "e" in let s := fresh "s" in let Hs := fresh "Hs" in
  let m := fresh "m" in let Hm := fresh "Hm" in
  apply bind_inv in H as (e & s & Hs & H);
  apply register_inv in Hs as (m & Hm & -> & ->);
  ns_normalize Hm; subst m.

Section model_block_variables.
Implicit Types st : state.

(** Whenever the model block returns a model, it is [transit_model] of the
    four preprocessed values bound in the state. *)
Lemma build_model_inv st m st' :
  build_model st = (inr m, st') →
  ∃ ref t err flux,
    globals st !! "t_ref" = Some (VNum ref) ∧
    globals st !! "t_norm" = Some (VArr t) ∧
    globals st !! "flux_err" = Some (VArr err) ∧
    globals st !! "flux_rel" = Some (VArr flux) ∧
    m = transit_model ref t err flux.
Proof.
  unfold build_model. intros H.
  inv_assign H.
  inv_register H. inv_assign H.
  inv_register H. inv_assign H.
  inv_register H. inv_assign H.
  apply bind_inv in H as (ref & s & Href & H).
  apply get_num_inv in Href as [-> Href]. ns_normalize Href.
  inv_register H. inv_assign H.
  inv_register H. inv_assign H.
  inv_register H. inv_assign H.
  inv_register H. inv_assign H.
  inv_register H. inv_assign H.
  inv_register H. inv_assign H.
  inv_register H. inv_assign H.
  inv_assign H.
  inv_register H. inv_assign H.
  inv_register H. inv_assign H.
  apply bind_inv in H as (t & s & Ht & H).
  apply get_arr_inv in Ht as [-> Ht]. ns_normalize Ht.
  inv_assign H.
  apply bind_inv in H as (err & s & Herr & H).
  apply get_arr_inv in Herr as [-> Herr]. ns_normalize Herr.
  apply bind_inv in H as (flux & s & Hflux & H).
  apply get_arr_inv in Hflux as [-> Hflux]. ns_normalize Hflux.
  inv_register H.
  apply get_model_inv in H as [-> H]. ns_normalize H. subst m.
  by exists ref, t, err, flux.
Qed.

End model_block_variables.

Section model_block_facts.
Context (L : Libraries).
Implicit Types st : state.
Local Open Scope R_scope.

Lemma build_model_binds_model st m st' :
  build_model st = (inr m, st') → globals st' !! "model" = Some (VModel m).
Proof.
  unfold build_model. intros H.
  repeat lazymatch type of H with
         | mbind _ _ _ = _ => apply bind_inv in H as (? & ? & _ & H)
         end.
  by apply get_model_inv in H as [-> H].
Qed.

(** The likelihood of the model the block builds.  Its one observed
    variable is [obs]: a normal distribution around the light curve of the
    orbit ([period], [tm], [b], [rho_star], [r_star]) for the radius ratio
    [r] and the limb darkening [u[0]], [u[1]], evaluated at the times bound
    to [t_norm] with their median spacing as exposure time, summed over its
    last axis, plus [mean]; its standard deviations are the array bound to
    [flux_err] and its data the array bound to [flux_rel]. *)
Theorem model_block_likelihood (st st' : state) (m : pm.Model) :
  build_model st = (inr m, st') →
  ∃ t err flux,
    globals st !! "t_norm" = Some (VArr t) ∧
    globals st !! "flux_err" = Some (VArr err) ∧
    globals st !! "flux_rel" = Some (VArr flux) ∧
    globals st' !! "model" = Some (VModel m) ∧
    filter (λ v, pm.is_observed v = true) m
    = [pm.Observed "obs"
         (pm.Normal
            (pm.EAdd
               (pm.ESumLast
                  (pm.ELightCurve
                     (pm.EItem (pm.ERef "u") 0) (pm.EItem (pm.ERef "u") 1)
                     (pm.Orbit (pm.ERef "period") (pm.ERef "tm")
                        (pm.ERef "b") (pm.ERef "rho_star")
                        (pm.ERef "r_star"))
                     (pm.ERef "r") t (np.median (np.diff t))))
               (pm.ERef "mean"))
            (pm.EArr err))
         flux].
Proof.
  intros H.
  pose proof (build_model_binds_model st m st' H) as Hm.
  destruct (build_model_inv st m st' H)
    as (ref & t & err & flux & _ & Ht & Herr & Hflux & ->).
  exists t, err, flux. repeat (split; [done |]). reflexivity.
Qed.

(** The posterior predictive call asks for [raw_lc], which is the name of a
    Python variable of the notebook and of no variable of the model:
    after the model block, the predictive block calls
    [pm.sample_posterior_predictive] once, with the model of the block and
    [var_names = ["raw_lc"]], and no variable of that model is named
    [raw_lc]. *)
Lemma summary_block_keeps_calls st : calls (summary_block st).2 = calls st.
Proof.
  assert (keeps same_calls summary_block) as K
    by (unfold summary_block; keeps_tac).
  apply K.
Qed.

Lemma predictive_block_calls st m tr :
  globals st !! "model" = Some (VModel m) →
  globals st !! "trace" = Some (VTrace tr) →
  calls (predictive_block L st).2
  = calls st ++ [call_sample_posterior_predictive m tr ["raw_lc"] 42].
Proof.
  intros Hm Ht. unfold predictive_block.
  rewrite (bind_run _ _ _ _ _ (get_model_run _ _ _ Hm)).
  rewrite (bind_run _ _ _ _ _ (get_trace_run _ _ _ Ht)).
  destruct (sample_posterior_predictive L m tr ["raw_lc"] 42)
    as [e | ppc] eqn:Hs.
  - erewrite bind_raise;
      [| by apply pm_sample_posterior_predictive_raise]. done.
  - erewrite bind_run;
      [| unfold pm_sample_posterior_predictive;
         etrans; [apply bind_run, record_run | by apply lift_run]].
    rewrite (bind_run _ _ _ _ _ (assign_run _ _ _)).
    by rewrite summary_block_keeps_calls.
Qed.

Theorem predictive_request_not_in_model (st st1 : state) (m : pm.Model)
    (tr : pm.Trace) :
  build_model st = (inr m, st1) →
  sample L m 2000 1000 0.9 = inr tr →
  ∃ st2,
    model_block L st = (inr (), st2) ∧
    calls (predictive_block L st2).2
    = calls st1
      ++ [call_sample m 2000 1000 0.9;
          call_sample_posterior_predictive m tr ["raw_lc"] 42] ∧
    "raw_lc" ∉ pm.rv_name <$> m.
Proof.
  intros Hb Hs.
  pose proof (build_model_binds_model st m st1 Hb) as Hm.
  eexists. split; [| split].
  - unfold model_block. rewrite (bind_run _ _ _ _ _ Hb).
    rewrite (bind_run _ _ _ _ _ (pm_sample_run L _ _ _ _ _ _ Hs)).
    apply assign_run.
  - rewrite (predictive_block_calls _ m tr) by ns_lookup.
    simpl. by rewrite <- app_assoc.
  - destruct (build_model_inv st m st1 Hb) as (? & ? & ? & ? & _ & _ & _ & _ & ->).
    apply (bool_decide_unpack _). by vm_compute.
Qed.

End model_block_facts.

(** * Where the run stops *)
Section stops_at_predictive.
Context (L : Libraries).
Implicit Types st : state.
Local Open Scope R_scope.

Lemma model_block_binds_model st st' m :
  build_model st = (inr m, st') →
  ∀ st2, model_block L st = (inr (), st2) →
  globals st2 !! "model" = Some (VModel m).
Proof.
  intros Hb st2 H. pose proof (build_model_binds_model st m st' Hb) as Hm.
  unfold model_block in H. rewrite (bind_run _ _ _ _ _ Hb) in H.
  apply bind_inv in H as (tr & s & Hs & H).
  unfold pm_sample in Hs. apply bind_inv in Hs as ([] & s' & Hr & Hs).
  unfold record in Hr. unfold lift in Hs. unfold assign in H.
  simplify_eq. by ns_lookup.
Qed.

(** Nothing before the posterior predictive call binds a name of the
    summary. *)
Lemma before_predictive_keeps (x : string) :
  x ∈ ["ppc"; "lc_samps"; "lc_median"; "lc_lo"; "lc_hi"] →
  keeps (same_global x) (cell1;; cell2 L;; cell3;; model_block L).
Proof.
  intros Hx. repeat (apply elem_of_cons in Hx as [-> | Hx]);
    [.. | by apply elem_of_nil in Hx];
    unfold cell1, cell2, cell3, model_block, build_model, register,
      pm_sample, read_csv, import; keeps_tac.
Qed.

(** [pm.sample_posterior_predictive] looks each requested name up in the
    model and raises [KeyError] for a name that is no variable of it.  With
    a library that does so, every run in which the table is read and the
    sampler returns stops at the posterior predictive call with
    [KeyError] for [raw_lc]: the trace is bound, the three library calls
    are logged and no plot is drawn, and no name of the summary is bound by
    the run. *)
Theorem run_stops_at_posterior_predictive (st : state) (text : string)
    (df : pd.DataFrame) (time mag merr : list R) (m : pm.Model)
    (tr : pm.Trace) :
  (∀ m' tr' seed,
     "raw_lc" ∉ pm.rv_name <$> m' →
     sample_posterior_predictive L m' tr' ["raw_lc"] seed
     = inl (KeyError "raw_lc")) →
  files st !! "data/lc_obs.csv" = Some text →
  parse_csv L text = inr df →
  df !! "HJD" = Some time → df !! "MAG" = Some mag → df !! "MERR" = Some merr →
  fitted_model time mag merr = inr m →
  sample L m 2000 1000 0.9 = inr tr →
  ∃ st',
    run_all L st = (inl (KeyError "raw_lc"), st') ∧
    globals st' !! "trace" = Some (VTrace tr) ∧
    calls st'
    = calls st
      ++ [call_read_csv "data/lc_obs.csv";
          call_sample m 2000 1000 0.9;
          call_sample_posterior_predictive m tr ["raw_lc"] 42] ∧
    ∀ x, x ∈ ["ppc"; "lc_samps"; "lc_median"; "lc_lo"; "lc_hi"] →
         globals st' !! x = globals st !! x.
Proof.
  intros Hkey Hf Hp Ht Hm He Hmodel Hs.
  unfold fitted_model in Hmodel.
  destruct (np.item0 time) as [? | t0] eqn:H0; [done |].
  destruct (flux_err (flux_rel mag) merr) as [? | err] eqn:Herr; [done |].
  injection Hmodel as <-.
  destruct (cell1_run st) as (st1 & H1 & Hf1 & Hc1).
  rewrite <- Hf1 in Hf.
  destruct (cell2_run L st1 text df time mag merr Hf Hp Ht Hm He)
    as (st2 & H2 & Gt & Gm & Ge & Hf2 & Hc2).
  destruct (cell3_run st2 time mag merr t0 err Gt Gm Ge H0 Herr)
    as (st3 & H3 & Gref & Gnorm & Gflux & Gerr & Gtime & Hf3 & Hc3).
  destruct (build_model_run st3 _ _ _ _ Gref Gnorm Gerr Gflux)
    as (st3' & Hb & _).
  destruct (model_block_run L st3 _ _ _ _ tr Gref Gnorm Gerr Gflux Hs)
    as (st4 & H4 & Gtr & Hf4 & Hc4).
  pose proof (model_block_binds_model st3 st3' _ Hb st4 H4) as Gmodel.
  assert ((cell1;; cell2 L;; cell3;; model_block L) st = (inr (), st4))
    as Hrun.
  { rewrite (bind_run _ _ _ _ _ H1), (bind_run _ _ _ _ _ H2).
    by rewrite (bind_run _ _ _ _ _ H3). }
  eexists. split; [| split; [| split]].
  - rewrite (run_all_after_model_block L st st4 Hrun).
    apply bind_raise. unfold predictive_block.
    rewrite (bind_run _ _ _ _ _ (get_model_run _ _ _ Gmodel)).
    rewrite (bind_run _ _ _ _ _ (get_trace_run _ _ _ Gtr)).
    apply bind_raise, pm_sample_posterior_predictive_raise, Hkey.
    apply (bool_decide_unpack _). by vm_compute.
  - by rewrite lookup_log.
  - simpl. rewrite Hc4, Hc3, Hc2, Hc1. by rewrite <- !app_assoc.
  - intros x Hx. rewrite lookup_log.
    pose proof (before_predictive_keeps x Hx st) as K.
    by rewrite Hrun in K.
Qed.

End stops_at_predictive.

(** * The further properties on small inputs *)
Section more_examples.
Local Open Scope R_scope.

(** A kernel that has run nothing, with no file beside it. *)
Definition fresh_kernel : state := MkState ∅ ∅ [].

(** Libraries whose parser returns a given frame. *)
Definition libraries_reading (df : pd.DataFrame) : Libraries :=
  MkLibraries (λ _, inr df)
    (sample example_libraries)
    (sample_posterior_predictive example_libraries)
    (draw example_libraries).

(** A table without the magnitudes, and a table without rows. *)
Definition frame_without_mag : pd.DataFrame :=
  <["HJD" := [1; 2; 4]]> (<["MERR" := [0.01; 0.02; 0]]> ∅).

Definition frame_without_rows : pd.DataFrame :=
  <["HJD" := []]> (<["MAG" := []]> (<["MERR" := []]> ∅)).

(** A kernel state after the third cell. *)
Definition example_preprocessed_state : state :=
  MkState
    (<["t_ref" := VNum (Some 1)]> (<["t_norm" := VArr [-1; 0; 1]]>
       (<["flux_err" := VArr [0.1; 0.1; 0.1]]>
          (<["flux_rel" := VArr [0; -0.1; 0.1]]> ∅))))
    ∅ [].

(** Libraries whose posterior predictive sampler looks the requested name
    up in the model, as PyMC does. *)
Definition libraries_checking_names : Libraries :=
  MkLibraries (parse_csv example_libraries) (sample example_libraries)
    (λ m _ _ _,
       if bool_decide ("raw_lc" ∈ pm.rv_name <$> m)
       then inr (<["raw_lc" := example_samples]> ∅)
       else inl (KeyError "raw_lc"))
    (draw example_libraries).

(** Kernels beside a table without magnitudes and beside a table without
    rows. *)
Definition state_without_mag : state :=
  kernel_beside (csv ["HJD,MERR"; "1.0,0.01"; "2.0,0.02"; "4.0,0.0"]).

Definition state_without_rows : state := kernel_beside "HJD,MAG,MERR".

End more_examples.

Section more_witnesses.
Local Open Scope R_scope.

Lemma missing_file_raises_witness :
  ∃ st1,
    cell1 fresh_kernel = (inr (), st1) ∧
    run_all example_libraries fresh_kernel
    = (inl (FileNotFoundError "data/lc_obs.csv"),
       log_call (call_read_csv "data/lc_obs.csv") st1) ∧
    calls st1 = calls fresh_kernel.
Proof. apply (missing_file_raises example_libraries fresh_kernel). reflexivity. Defined.

Lemma missing_column_raises_witness :
  ∃ st',
    run_all (libraries_reading frame_without_mag) state_without_mag
    = (inl (KeyError "MAG"), st') ∧
    calls st' = calls state_without_mag ++ [call_read_csv "data/lc_obs.csv"].
Proof.
  apply (missing_column_raises (libraries_reading frame_without_mag)
           state_without_mag
           (csv ["HJD,MERR"; "1.0,0.01"; "2.0,0.02"; "4.0,0.0"])
           frame_without_mag ["HJD"] ["MERR"] "MAG").
  - reflexivity.
  - reflexivity.
  - reflexivity.
  - intros c' Hc. apply list_elem_of_singleton in Hc as ->. by eexists.
  - reflexivity.
Defined.

Lemma empty_table_raises_witness :
  ∃ st',
    run_all (libraries_reading frame_without_rows) state_without_rows
    = (inl IndexError, st') ∧
    calls st' = calls state_without_rows ++ [call_read_csv "data/lc_obs.csv"] ∧
    globals st' !! "time" = Some (VArr []).
Proof.
  apply (empty_table_raises (libraries_reading frame_without_rows)
           state_without_rows "HJD,MAG,MERR" frame_without_rows [] []);
    reflexivity.
Defined.

Lemma out_of_order_raises_witness :
  ∃ st1,
    cell1 fresh_kernel = (inr (), st1) ∧
    cell3 fresh_kernel = (inl (NameError "time"), fresh_kernel) ∧
    ∃ st', cell4 example_libraries st1 = (inl (NameError "t_ref"), st') ∧
           calls st' = calls fresh_kernel ∧ files st' = files fresh_kernel.
Proof.
  destruct (cell1_run fresh_kernel) as (st1 & H1 & _).
  exists st1. split; [exact H1 |].
  destruct (out_of_order_raises example_libraries fresh_kernel st1)
    as [H3 H4].
  split; [apply H3 | apply H4]; done.
Defined.

Lemma example_build_model :
  ∃ st',
    build_model example_preprocessed_state
    = (inr (transit_model (Some 1) [-1; 0; 1] [0.1; 0.1; 0.1] [0; -0.1; 0.1]),
       st').
Proof.
  destruct (build_model_run example_preprocessed_state (Some 1) [-1; 0; 1]
              [0.1; 0.1; 0.1] [0; -0.1; 0.1]) as (st' & Hb & _);
    [reflexivity .. |].
  by exists st'.
Qed.

Lemma model_block_likelihood_witness :
  ∃ m st' t err flux,
    build_model example_preprocessed_state = (inr m, st') ∧
    globals example_preprocessed_state !! "t_norm" = Some (VArr t) ∧
    globals example_preprocessed_state !! "flux_err" = Some (VArr err) ∧
    globals example_preprocessed_state !! "flux_rel" = Some (VArr flux) ∧
    globals st' !! "model" = Some (VModel m) ∧
    filter (λ v, pm.is_observed v = true) m
    = [pm.Observed "obs"
         (pm.Normal
            (pm.EAdd
               (pm.ESumLast
                  (pm.ELightCurve
                     (pm.EItem (pm.ERef "u") 0) (pm.EItem (pm.ERef "u") 1)
                     (pm.Orbit (pm.ERef "period") (pm.ERef "tm")
                        (pm.ERef "b") (pm.ERef "rho_star")
                        (pm.ERef "r_star"))
                     (pm.ERef "r") t (np.median (np.diff t))))
               (pm.ERef "mean"))
            (pm.EArr err))
         flux].
Proof.
  destruct example_build_model as [st' Hb].
  destruct (model_block_likelihood example_preprocessed_state st' _ Hb)
    as (t & err & flux & H).
  by eexists _, st', t, err, flux.
Defined.

Lemma predictive_request_not_in_model_witness :
  ∃ m st1 st2,
    build_model example_preprocessed_state = (inr m, st1) ∧
    model_block example_libraries example_preprocessed_state
    = (inr (), st2) ∧
    calls (predictive_block example_libraries st2).2
    = calls st1
      ++ [call_sample m 2000 1000 0.9;
          call_sample_posterior_predictive m example_trace ["raw_lc"] 42] ∧
    "raw_lc" ∉ pm.rv_name <$> m.
Proof.
  destruct example_build_model as [st1 Hb].
  destruct (predictive_request_not_in_model example_libraries
              example_preprocessed_state st1 _ example_trace Hb eq_refl)
    as (st2 & H2 & Hc & Hn).
  by eexists _, st1, st2.
Defined.

Lemma libraries_checking_names_spec (m : pm.Model) (tr : pm.Trace)
    (seed : nat) :
  "raw_lc" ∉ pm.rv_name <$> m →
  sample_posterior_predictive libraries_checking_names m tr ["raw_lc"] seed
  = inl (KeyError "raw_lc").
Proof. intros Hm. simpl. by rewrite bool_decide_false. Qed.

Lemma run_stops_at_posterior_predictive_witness :
  ∃ m st',
    fitted_model [1; 2; 4] [12; 13; 11] [0.01; 0.02; 0] = inr m ∧
    run_all libraries_checking_names example_state
    = (inl (KeyError "raw_lc"), st') ∧
    globals st' !! "trace" = Some (VTrace example_trace) ∧
    calls st'
    = calls example_state
      ++ [call_read_csv "data/lc_obs.csv";
          call_sample m 2000 1000 0.9;
          call_sample_posterior_predictive m example_trace ["raw_lc"] 42] ∧
    ∀ x, x ∈ ["ppc"; "lc_samps"; "lc_median"; "lc_lo"; "lc_hi"] →
         globals st' !! x = globals example_state !! x.
Proof.
  destruct (run_stops_at_posterior_predictive libraries_checking_names
              example_state example_csv example_frame [1; 2; 4] [12; 13; 11]
              [0.01; 0.02; 0] _ example_trace libraries_checking_names_spec
              eq_refl eq_refl eq_refl eq_refl eq_refl example_fitted_model
              eq_refl)
    as (st' & H).
  eexists _, st'. split; [exact example_fitted_model | exact H].
Defined.

End more_witnesses.

(** * Running the preprocessing again *)
Section rerun.
Implicit Types st : state.
Local Open Scope R_scope.

Lemma set_global_id x v st :
  globals st !! x = Some v → set_global x v st = st.
Proof.
  intros Hx. destruct st as [g f c]. unfold set_global. simpl in *.
  by rewrite insert_id.
Qed.

(** What the third cell has bound when it returns. *)
Lemma cell3_inv st st3 :
  cell3 st = (inr (), st3) →
  ∃ time mag merr t0 err,
    np.item0 time = inr t0 ∧
    flux_err (flux_rel mag) merr = inr err ∧
    globals st3 !! "time" = Some (VArr time) ∧
    globals st3 !! "mag" = Some (VArr mag) ∧
    globals st3 !! "merr" = Some (VArr merr) ∧
    globals st3 !! "t0" = Some (VNum (Some t0)) ∧
    globals st3 !! "t_rel" = Some (VArr (t_rel time t0)) ∧
    globals st3 !! "t_ref" = Some (VNum (t_ref time t0)) ∧
    globals st3 !! "t_norm" = Some (VArr (t_norm time t0)) ∧
    globals st3 !! "mag0" = Some (VNum (mag0 mag)) ∧
    globals st3 !! "flux_rel" = Some (VArr (flux_rel mag)) ∧
    globals st3 !! "flux_err" = Some (VArr err).
Proof.
  unfold cell3. intros H.
  apply bind_inv in H as (time & s & Ht & H).
  apply get_arr_inv in Ht as [-> Ht].
  apply bind_inv in H as (t0 & s & H0 & H).
  unfold lift in H0. injection H0 as H0 <-.
  inv_assign H. inv_assign H. inv_assign H. inv_assign H.
  apply bind_inv in H as (mag & s & Hm & H).
  apply get_arr_inv in Hm as [-> Hm]. ns_normalize Hm.
  inv_assign H. inv_assign H.
  apply bind_inv in H as (merr & s & He & H).
  apply get_arr_inv in He as [-> He]. ns_normalize He.
  apply bind_inv in H as (err & s & Herr & H).
  unfold lift in Herr. injection Herr as Herr <-.
  apply assign_inv in H as ->.
  exists time, mag, merr, t0, err.
  repeat split; try done; ns_lookup.
Qed.

(** Running the third cell a second time changes nothing: it binds the same
    values to the same names. *)
Theorem cell3_idempotent (st st3 : state) :
  cell3 st = (inr (), st3) → cell3 st3 = (inr (), st3).
Proof.
  intros H.
  destruct (cell3_inv st st3 H)
    as (time & mag & merr & t0 & err & H0 & Herr & Gt & Gm & Ge & G0 & Grel
        & Gref & Gnorm & Gmag0 & Gflux & Gerr).
  unfold cell3.
  rewrite (bind_run _ _ _ _ _ (get_arr_run _ _ _ Gt)).
  rewrite (bind_run _ _ _ _ _ (lift_run _ _ _ H0)).
  rewrite (bind_run _ _ _ _ _ (assign_run _ _ _)), (set_global_id _ _ _ G0).
  rewrite (bind_run _ _ _ _ _ (assign_run _ _ _)), (set_global_id _ _ _ Grel).
  rewrite (bind_run _ _ _ _ _ (assign_run _ _ _)), (set_global_id _ _ _ Gref).
  rewrite (bind_run _ _ _ _ _ (assign_run _ _ _)), (set_global_id _ _ _ Gnorm).
  rewrite (bind_run _ _ _ _ _ (get_arr_run _ _ _ Gm)).
  rewrite (bind_run _ _ _ _ _ (assign_run _ _ _)), (set_global_id _ _ _ Gmag0).
  rewrite (bind_run _ _ _ _ _ (assign_run _ _ _)), (set_global_id _ _ _ Gflux).
  rewrite (bind_run _ _ _ _ _ (get_arr_run _ _ _ Ge)).
  rewrite (bind_run _ _ _ _ _ (lift_run _ _ _ Herr)).
  by rewrite assign_run, (set_global_id _ _ _ Gerr).
Qed.

End rerun.

Section rerun_witness.
Local Open Scope R_scope.

(** A kernel state after the second cell. *)
Definition example_read_state : state :=
  MkState
    (<["time" := VArr [1; 2; 4]]> (<["mag" := VArr [12; 13; 11]]>
       (<["merr" := VArr [0.01; 0.02; 0]]> ∅)))
    ∅ [].

Lemma cell3_idempotent_witness :
  ∃ st3,
    cell3 example_read_state = (inr (), st3) ∧ cell3 st3 = (inr (), st3).
Proof.
  destruct (cell3_run example_read_state [1; 2; 4] [12; 13; 11]
              [0.01; 0.02; 0] 1 _ eq_refl eq_refl eq_refl eq_refl
              (flux_err_same_length _ [0.01; 0.02; 0]
                 (flux_rel_length_any [12; 13; 11])))
    as (st3 & H3 & _).
  exists st3. split; [exact H3 |].
  exact (cell3_idempotent example_read_state st3 H3).
Defined.

End rerun_witness.
